(** * RawData: the raw-data interface of the time series server

    A shallow embedding of [lib/interfaces/RawData.js]: the window of latest
    observations, the fragment writer, the two HTTP handlers and the Hydra
    metadata generator, with the properties that the specification states
    about them.

    Modelling conventions.
    - A valid JavaScript [Date] is its epoch time in milliseconds, a [Z];
      an invalid one is [None].
    - A string is the sequence of its UTF-8 bytes, so
      [Buffer.from(s).byteLength] is [String.length].
    - The class instance together with the storage folder and the websocket
      channel is the record [World]; every method takes a world and returns
      the world it leaves behind.
    - [onData] starts every [init] without awaiting it, [init] calls
      [storeData] without awaiting it, and [storeData] awaits the append
      before it counts the bytes.  The event loop at the end of the
      definitions ([arrive], [storeData_begin], [storeData_settle], [run])
      follows this: the synchronous block of [init] is one step and the
      completion of an append is another, in any order.  [storeData],
      [init] and [onData] are these steps with each append completed
      before anything else runs, which is what happens when observations
      arrive one at a time. *)

From Stdlib Require Import ZArith String Ascii List Lia.
From stdpp Require Import base option list strings gmap.
From Equations Require Import Equations.
Import ListNotations.

Local Open Scope string_scope.
Local Open Scope Z_scope.

(** ** RDF terms and quads (N3 [DataFactory]) *)

Inductive term : Type :=
| namedNode (iri : string)
| literal (value : string)
| literalBool (value : bool)
| defaultGraph.

Record quad : Type := Quad {
  q_subject : term;
  q_predicate : term;
  q_object : term;
  q_graph : term
}.

Definition Prefixes : Type := list (string * string).

Definition term_eqb (a b : term) : bool :=
  match a, b with
  | namedNode x, namedNode y => String.eqb x y
  | literal x, literal y => String.eqb x y
  | literalBool x, literalBool y => Bool.eqb x y
  | defaultGraph, defaultGraph => true
  | _, _ => false
  end.

(** ** Collaborators

    [Utils], [md5] and the [Date] methods are not part of this file of the
    repository; the code is embedded over an arbitrary implementation of
    them.  A failing promise or an exception is [None]. *)

Class Externals : Type := {
  (** [Utils.getGeneratedAtTimeValue(data)] *)
  getGeneratedAtTimeValue : string -> option Z;
  (** [Utils.getTriplesFromString(data)]: prefixes and triples *)
  getTriplesFromString : string -> option (Prefixes * list quad);
  (** [Utils.formatTriples(format, triples, prefixes)] *)
  formatTriples : string -> list quad -> option Prefixes -> string;
  (** [Utils.getAllFragments(path)]: the listing of the storage folder *)
  getAllFragments : gmap string string -> string -> list string;
  (** [Utils.getTriplesFromFile(path)] *)
  getTriplesFromFile : gmap string string -> string -> option (Prefixes * list quad);
  (** [md5(s)] *)
  md5 : string -> string;
  (** [new Date(s).getTime()], [None] for [Invalid Date] *)
  dateParse : string -> option Z;
  (** [d.toISOString()] *)
  toISOString : Z -> string;
  (** [d.toUTCString()] *)
  toUTCString : Z -> string
}.

(** ** JavaScript string and array primitives used by the class *)

(** [s.indexOf(pat)]: first position of [pat] in [s], or [-1]. *)
Definition indexOf (s pat : string) : Z :=
  match String.index 0 pat s with
  | Some i => Z.of_nat i
  | None => -1
  end.

(** [s.substring(0, e)]: a negative end is taken as [0]. *)
Definition substring0 (s : string) (e : Z) : string :=
  String.substring 0 (Z.to_nat e) s.

(** [a.pop()]: removes the last element of the array and returns it
    ([undefined], here [None], on an empty array). *)
Definition pop {A : Type} (a : list A) : option A * list A :=
  (last a, removelast a).

(** [a.push(x)] *)
Definition push {A : Type} (a : list A) (x : A) : list A := a ++ [x].

(** The double quote character, as a one-character string. *)
Definition dquote : string := String (ascii_of_nat 34) EmptyString.

(** The line feed, as a one-character string. *)
Definition newline : string := String (ascii_of_nat 10) EmptyString.

(** ** The instance *)

Record Entry : Type := mkEntry {
  data : string;
  triples : list quad;
  triplesTrig : string;
  gat : Z
}.

(** The part of [config] that the class reads. *)
Record Config : Type := mkConfig {
  cfg_name : string;
  cfg_websocket : bool;
  cfg_fragmentsPath : string;
  cfg_maxFileSize : Z;
  cfg_latestWindowsize : Z;
  cfg_license : string
}.

Record RawData : Type := mkRawData {
  _serverUrl : string;
  _name : string;
  _baseUri : string;
  _websocket : bool;
  _fragmentsPath : string;
  _fragmentMaxSize : Z;
  _byteCounter : Z;
  _latestWindowsize : Z;
  _latest : list Entry;
  _latestTrig : string;
  _staticTriples : string;
  _prevEtag : string;
  _prevResponseBody : string;
  _license : string;
  lastFragment : option string
}.

(** The instance, the files of the storage folder (name to content) and the
    payloads pushed to the websocket subscribers, newest last. *)
Record World : Type := mkWorld {
  self : RawData;
  disk : gmap string string;
  pushed : list (string * string)
}.

(** [constructor(config, commMan)], with [commMan.config.serverUrl]. *)
Definition constructor (config : Config) (serverUrl : string) : RawData :=
  {| _serverUrl := serverUrl;
     _name := cfg_name config;
     _baseUri := serverUrl +:+ cfg_name config +:+ "/fragments";
     _websocket := cfg_websocket config;
     _fragmentsPath := cfg_fragmentsPath config;
     _fragmentMaxSize := cfg_maxFileSize config;
     _byteCounter := 0;
     _latestWindowsize := cfg_latestWindowsize config;
     _latest := [];
     _latestTrig := EmptyString;
     _staticTriples := EmptyString;
     _prevEtag := EmptyString;
     _prevResponseBody := EmptyString;
     _license := cfg_license config;
     lastFragment := None |}.

(** Field assignments. *)
Definition set_byteCounter (v : Z) (r : RawData) : RawData :=
  mkRawData (_serverUrl r) (_name r) (_baseUri r) (_websocket r) (_fragmentsPath r)
    (_fragmentMaxSize r) v (_latestWindowsize r) (_latest r) (_latestTrig r)
    (_staticTriples r) (_prevEtag r) (_prevResponseBody r) (_license r) (lastFragment r).

Definition set_lastFragment (v : option string) (r : RawData) : RawData :=
  mkRawData (_serverUrl r) (_name r) (_baseUri r) (_websocket r) (_fragmentsPath r)
    (_fragmentMaxSize r) (_byteCounter r) (_latestWindowsize r) (_latest r) (_latestTrig r)
    (_staticTriples r) (_prevEtag r) (_prevResponseBody r) (_license r) v.

Definition set_latest (v : list Entry) (r : RawData) : RawData :=
  mkRawData (_serverUrl r) (_name r) (_baseUri r) (_websocket r) (_fragmentsPath r)
    (_fragmentMaxSize r) (_byteCounter r) (_latestWindowsize r) v (_latestTrig r)
    (_staticTriples r) (_prevEtag r) (_prevResponseBody r) (_license r) (lastFragment r).

Definition set_latestTrig (v : string) (r : RawData) : RawData :=
  mkRawData (_serverUrl r) (_name r) (_baseUri r) (_websocket r) (_fragmentsPath r)
    (_fragmentMaxSize r) (_byteCounter r) (_latestWindowsize r) (_latest r) v
    (_staticTriples r) (_prevEtag r) (_prevResponseBody r) (_license r) (lastFragment r).

Definition set_prevEtag (v : string) (r : RawData) : RawData :=
  mkRawData (_serverUrl r) (_name r) (_baseUri r) (_websocket r) (_fragmentsPath r)
    (_fragmentMaxSize r) (_byteCounter r) (_latestWindowsize r) (_latest r) (_latestTrig r)
    (_staticTriples r) v (_prevResponseBody r) (_license r) (lastFragment r).

Definition set_prevResponseBody (v : string) (r : RawData) : RawData :=
  mkRawData (_serverUrl r) (_name r) (_baseUri r) (_websocket r) (_fragmentsPath r)
    (_fragmentMaxSize r) (_byteCounter r) (_latestWindowsize r) (_latest r) (_latestTrig r)
    (_staticTriples r) (_prevEtag r) v (_license r) (lastFragment r).

Definition with_self (f : RawData -> RawData) (w : World) : World :=
  mkWorld (f (self w)) (disk w) (pushed w).

Definition with_disk (f : gmap string string -> gmap string string) (w : World) : World :=
  mkWorld (self w) (f (disk w)) (pushed w).

(** [commMan.pushData(name, payload)] *)
Definition pushData (name payload : string) (w : World) : World :=
  mkWorld (self w) (disk w) (pushed w ++ [(name, payload)]).

(** ** Storage and the fragment index (from [Utils]) *)

(** Modelled from the spec: [Utils.appendToFile(path, text)] is missing from
    the sources; the storage backend "appends to a named file in a
    directory", creating the file when it does not exist yet. *)
Definition appendToFile (path text : string) (d : gmap string string)
  : gmap string string :=
  <[path := default EmptyString (d !! path) +:+ text]> d.

(** Modelled from the spec: [Utils.getFragmentsCount(path)] is missing from
    the sources; "[count()] returns the number of fragments" of the listing. *)
Definition getFragmentsCount `{Externals} (d : gmap string string) (path : string) : Z :=
  Z.of_nat (length (getAllFragments d path)).

(** Modelled from the spec: the middle of two positions of the binary
    search, [Math.floor((lo + hi) / 2)]. *)
Definition midpoint (lo hi : nat) : nat := Nat.div2 (lo + hi).

(** Modelled from the spec: the loop of the "binary search over the
    ascending timestamp sequence" of [Utils.dateBinarySearch].  The answer
    lies in the positions [lo .. hi - 1]; the middle position is compared
    with the target and one half is dropped. *)
Equations? bsearch (target : Z) (fragments : list Z) (lo hi : nat) : nat
  by wf (hi - lo)%nat lt :=
  bsearch target fragments lo hi with le_lt_dec hi (S lo) := {
    | left _ => lo
    | right _ with Z.leb (nth (midpoint lo hi) fragments 0) target := {
        | true => bsearch target fragments (midpoint lo hi) hi
        | false => bsearch target fragments lo (midpoint lo hi) } }.
Proof.
  all: unfold midpoint; pose proof (Nat.div2_odd (lo + hi)) as E;
    destruct (Nat.odd (lo + hi)); cbn [Nat.b2n] in E; lia.
Qed.

(** Modelled from the spec: [Utils.dateBinarySearch(target, fragments)] is
    missing from the sources; "[locate(queryTime)] performs a binary search
    over the ascending timestamp sequence and returns the fragment whose
    timestamp is the greatest value <= [queryTime], and its zero-based index
    in the sorted sequence.  If [queryTime] is before the earliest fragment,
    define the result as the earliest fragment (index 0)".  The spec says
    nothing of an empty sequence, for which the model has no result. *)
Definition dateBinarySearch (target : Z) (fragments : list Z) : option (Z * nat) :=
  match fragments with
  | [] => None
  | b0 :: _ =>
      if target <? b0 then Some (b0, 0%nat)
      else
        let index := bsearch target fragments 0 (length fragments) in
        Some (nth index fragments 0, index)
  end.

(** [b_0 < b_1 < ... < b_n]: each boundary time is before the next. *)
Fixpoint ascendingb (bs : list Z) : bool :=
  match bs with
  | a :: (b :: _) as rest => (a <? b) && ascendingb rest
  | _ => true
  end.

(** ** The fragment writer *)

Section Methods.
Context `{Externals}.

(** The test of line 171: whether [storeData] starts a new fragment. *)
Definition rotates (w : World) : bool :=
  (_byteCounter (self w) =? 0) || (_byteCounter (self w) >? _fragmentMaxSize (self w)).

(** [storeData(_data, _gat)] with nothing else running while the append is
    awaited: lines 171-179 in one go, that is [storeData_begin] followed
    at once by [storeData_settle] (lemma [storeData_in_isolation]). *)
Definition storeData (_data : string) (_gat : Z) (w : World) : World :=
  let w1 :=
    if rotates w
    then
      (* Create new fragment *)
      with_self (fun r =>
        set_byteCounter 0
          (set_lastFragment
             (Some (_fragmentsPath r +:+ "/" +:+ toISOString _gat +:+ ".trig")) r)) w
    else w in
  match lastFragment (self w1) with
  | Some path =>
      let w2 := with_disk (appendToFile path _data) w1 in
      let bytes := Z.of_nat (String.length _data) in
      with_self (fun r => set_byteCounter (_byteCounter r + bytes) r) w2
  | None => w1 (* appending to [undefined] throws; nothing is counted *)
  end.

(** A run of the writer: [storeData] on each payload and time in turn,
    each call completed before the next one starts. *)
Definition storeAll (ps : list (string * Z)) (w : World) : World :=
  fold_left (fun acc p => storeData (fst p) (snd p) acc) ps w.

(** The name of the fragment that [storeData] would start at time [ts]. *)
Definition freshFragment (ts : Z) (w : World) : string :=
  _fragmentsPath (self w) +:+ "/" +:+ toISOString ts +:+ ".trig".

(** What the writer keeps true: the counter is not negative, and it is 0
    as long as no fragment was started. *)
Definition writerInv (w : World) : Prop :=
  0 <= _byteCounter (self w) /\
  (lastFragment (self w) = None -> _byteCounter (self w) = 0).

(** With non-empty payloads only, the counter is positive once a fragment
    is open. *)
Definition counterTracksOpen (w : World) : Prop :=
  writerInv w /\ (_byteCounter (self w) = 0 -> lastFragment (self w) = None).

(** The claim as the specification words it: a new fragment is started
    exactly when no fragment is open or the counter is over the cap. *)
Definition rotationAsSpecified (w : World) : Prop :=
  rotates w = true <->
  lastFragment (self w) = None \/ _byteCounter (self w) > _fragmentMaxSize (self w).

(** ** The window of latest observations *)

(** Lines 62-67 of [init]: the entry is pushed on the window. *)
Definition init_push (e : Entry) (w : World) : World :=
  with_self (fun r => set_latest (push (_latest r) e) r) w.

(** Lines 69-72: the observation is pushed to the websocket subscribers. *)
Definition init_publish (d : string) (w : World) : World :=
  if _websocket (self w)
  then pushData (_name (self w)) (_staticTriples (self w) +:+ d) w
  else w.

(** Lines 74-78: when the window is over its size, an entry is popped and
    stored in a fragment. *)
Definition init_evict (w : World) : World :=
  if Z.of_nat (length (_latest (self w))) >? _latestWindowsize (self w)
  then
    match pop (_latest (self w)) with
    | (Some o, rest) => storeData (data o) (gat o) (with_self (set_latest rest) w)
    | (None, rest) => with_self (set_latest rest) w
    end
  else w.

(** Lines 80-84: the TriG text of the window is rebuilt. *)
Definition init_refresh (w : World) : World :=
  let newLatestTrig :=
    fold_left (fun acc e => acc +:+ (newline +:+ triplesTrig e))
      (_latest (self w)) EmptyString in
  with_self (set_latestTrig newLatestTrig) w.

(** [init(data)] with the append of its [storeData] completed before
    anything else runs ([arrive] is the method without that completion).
    When one of the three awaited calls at its start fails, the method
    stops before it touches the instance. *)
Definition init (d : string) (w : World) : World :=
  match getGeneratedAtTimeValue d with
  | None => w
  | Some g =>
      match getTriplesFromString d with
      | None => w
      | Some (_, ts) =>
          let triplesTrig := formatTriples "application/trig" ts None in
          init_refresh (init_evict (init_publish d (init_push (mkEntry d ts triplesTrig g) w)))
      end
  end.

(** [onData(data)], one observation after the other, each one processed to
    its end before the next one arrives (lemma [run_quiescent]).  For the
    observations of one array the appends overlap: see [run]; the window,
    its text and the websocket pushes are the same in both ([run_front]). *)
Definition onData (ds : list string) (w : World) : World :=
  fold_left (fun acc d => init d acc) ds w.

(** The entry that [init d] hands to [storeData] in world [w], if any:
    the argument of the call on line 77. *)
Definition evicted (d : string) (w : World) : option Entry :=
  match getGeneratedAtTimeValue d with
  | None => None
  | Some g =>
      match getTriplesFromString d with
      | None => None
      | Some (_, ts) =>
          let w1 := init_publish d
            (init_push (mkEntry d ts (formatTriples "application/trig" ts None) g) w) in
          if Z.of_nat (length (_latest (self w1))) >? _latestWindowsize (self w1)
          then fst (pop (_latest (self w1)))
          else None
      end
  end.

(** ** The Hydra metadata *)

Definition hydra_previous : string := "http://www.w3.org/ns/hydra/core#previous".

(** [createMetadata(subject, index)] up to the final formatting: the quads
    of the metadata graph.  [None] stands for the [TypeError] raised when
    [fragments[index - 1]] is [undefined]. *)
Definition createMetadataQuads (subject : string) (index : nat) (w : World)
  : option (list quad) :=
  let r := self w in
  let md := namedNode "#Metadata" in
  let quads :=
    [ (* Add Hydra search template *)
      Quad (namedNode subject)
           (namedNode "http://www.w3.org/ns/hydra/core#search")
           (namedNode (subject +:+ "#search")) md;
      Quad (namedNode (subject +:+ "#search"))
           (namedNode "http://www.w3.org/1999/02/22-rdf-syntax-ns#type")
           (namedNode "http://www.w3.org/ns/hydra/core#IriTemplate") md;
      Quad (namedNode (subject +:+ "#search"))
           (namedNode "http://www.w3.org/ns/hydra/core#template")
           (literal (_baseUri r +:+ "{?time}")) md;
      Quad (namedNode (subject +:+ "#search"))
           (namedNode "http://www.w3.org/ns/hydra/core#variableRepresentation")
           (namedNode "http://www.w3.org/ns/hydra/core#BasicRepresentation") md;
      Quad (namedNode (subject +:+ "#search"))
           (namedNode "http://www.w3.org/ns/hydra/core#mapping")
           (namedNode (subject +:+ "#mapping")) md;
      Quad (namedNode (subject +:+ "#mapping"))
           (namedNode "http://www.w3.org/1999/02/22-rdf-syntax-ns#type")
           (namedNode "http://www.w3.org/ns/hydra/core#IriTemplateMapping") md;
      Quad (namedNode (subject +:+ "#mapping"))
           (namedNode "http://www.w3.org/ns/hydra/core#variable")
           (literal "time") md;
      Quad (namedNode (subject +:+ "#mapping"))
           (namedNode "http://www.w3.org/ns/hydra/core#required")
           (literalBool true) md ] in
  let quads :=
    if negb (String.eqb (_license r) EmptyString)
    then push quads
           (Quad (namedNode subject)
                 (namedNode "http://creativecommons.org/ns#license")
                 (namedNode (_license r)) md)
    else quads in
  if (0 <? index)%nat then
    (* Adding hydra:previous link *)
    let fragments := getAllFragments (disk w) (_fragmentsPath r) in
    match fragments !! (index - 1)%nat with
    | None => None
    | Some f =>
        let previous := substring0 f (indexOf f ".trig") in
        Some (push quads
                (Quad (namedNode subject)
                      (namedNode hydra_previous)
                      (namedNode (_serverUrl r +:+ _name r +:+ "/fragments?time=" +:+ previous))
                      md))
    end
  else Some quads.

Definition createMetadata (subject : string) (index : nat) (w : World) : option string :=
  (fun quads => formatTriples "application/trig" quads None)
    <$> createMetadataQuads subject index w.

(** The [hydra:previous] links among the quads of a metadata graph. *)
Definition previousLinks (quads : list quad) : list quad :=
  List.filter (fun q => term_eqb (q_predicate q) (namedNode hydra_previous)) quads.

(** ** HTTP responses (the part of Koa's [ctx] that the handlers use) *)

Record Response : Type := mkResponse {
  status : Z;
  explicitStatus : bool;
  headers : gmap string string;
  body : option string
}.

(** A handler answers with a response or fails with an exception. *)
Inductive Outcome : Type :=
| Respond (res : Response)
| Throw (error : string).

(** A response before the handler runs: Koa starts from status 404. *)
Definition freshResponse : Response := mkResponse 404 false ∅ None.

(** [ctx.response.set({field: value})] *)
Definition set_header (field value : string) (res : Response) : Response :=
  mkResponse (status res) (explicitStatus res) (<[field := value]> (headers res)) (body res).

(** [ctx.response.status = code] *)
Definition set_status (code : Z) (res : Response) : Response :=
  mkResponse code true (headers res) (body res).

(** [ctx.response.body = text]: the status becomes 200 unless one was set. *)
Definition set_body (text : string) (res : Response) : Response :=
  mkResponse (if explicitStatus res then status res else 200) (explicitStatus res)
    (headers res) (Some text).

(** [ctx.redirect(url)]: the [Location] header; the status, 302 here, is
    kept.  The text that Koa puts in the body of a redirect is left out. *)
Definition redirect (url : string) (res : Response) : Response :=
  set_header "Location" url res.

(** ** The live reader: [GET /<name>/latest] *)

(** Line 98: the validator, a weak ETag with the MD5 of the newest entry. *)
Definition etagOf (newest : Entry) : string :=
  "W/" +:+ dquote +:+ md5 (data newest) +:+ dquote.

Definition getLatest (ifNoneMatchHeader : option string) (w : World) : Outcome * World :=
  let r := self w in
  let res := set_header "Access-Control-Allow-Origin" "*" freshResponse in
  match last (_latest r) with
  | None => (Respond (set_body "No data found" (set_status 404 res)), w)
  | Some newest =>
      (* MD5 of last observation *)
      let etag := etagOf newest in
      let last_modified := toUTCString (gat newest) in
      if match ifNoneMatchHeader with
         | Some h => negb (String.eqb h EmptyString) && String.eqb h etag
         | None => false
         end
      then (Respond (set_status 304 res), w)
      else if String.eqb etag (_prevEtag r)
      then (* [return prevResponse]: no such variable is in scope *)
        (Throw "ReferenceError: prevResponse is not defined", w)
      else
        let res :=
          set_header "Content-Type" "application/trig"
            (set_header "Last-Modified" last_modified
               (set_header "ETag" etag res)) in
        (* Hydra controls *)
        let uri := _baseUri r +:+ "/latest" in
        let index := length (getAllFragments (disk w) (_fragmentsPath r)) in
        match createMetadata uri index w with
        | None => (Throw "TypeError: fragments[index - 1] is undefined", w)
        | Some metadata =>
            let responseBody :=
              _staticTriples r +:+ (newline +:+ _latestTrig r) +:+ (newline +:+ metadata) in
            let w' :=
              with_self (fun r => set_prevEtag etag (set_prevResponseBody responseBody r)) w in
            (Respond (set_body responseBody res), w')
        end
  end.

(** ** The historical reader: [GET /<name>/fragments?time=...] *)

(** Line 138: the time that a fragment file name encodes. *)
Definition fragmentTime (f : string) : option Z :=
  dateParse (substring0 f (indexOf f ".trig")).

(** [time] is the query parameter ([None] when it is missing) and [now]
    the clock.  A file of the storage folder whose name encodes no time is
    outside what the spec defines for the search; the model stops there
    with an exception. *)
Definition getFragments (time : option string) (now : Z) (w : World) : Outcome * World :=
  let r := self w in
  let res := set_header "Access-Control-Allow-Origin" "*" freshResponse in
  match time ≫= dateParse with
  | None =>
      (* Redirect to now time *)
      (Respond (redirect ("/" +:+ _name r +:+ "/fragments?time=" +:+ toISOString now)
                  (set_status 302 res)), w)
  | Some queryTime =>
      match mapM fragmentTime (getAllFragments (disk w) (_fragmentsPath r)) with
      | None => (Throw "RangeError: Invalid time value", w)
      | Some fragments =>
          match dateBinarySearch queryTime fragments with
          | None => (Throw "TypeError: fragment is undefined", w)
          | Some (fragment, index) =>
              if negb (queryTime =? fragment) then
                (* Redirect to correct fragment URL *)
                (Respond (redirect ("/" +:+ _name r +:+ "/fragments?time=" +:+ toISOString fragment)
                            (set_status 302 res)), w)
              else
                let fc := getFragmentsCount (disk w) (_fragmentsPath r) in
                match getTriplesFromFile (disk w)
                        (_fragmentsPath r +:+ "/" +:+ toISOString fragment +:+ ".trig") with
                | None => (Throw "Error: cannot read the fragment", w)
                | Some (prefixes, ft) =>
                    let fragmentTriples :=
                      formatTriples "application/trig" ft (Some prefixes) in
                    let uri := _baseUri r +:+ "?time=" +:+ toISOString fragment in
                    match createMetadata uri index w with
                    | None => (Throw "TypeError: fragments[index - 1] is undefined", w)
                    | Some metaData =>
                        let res :=
                          set_body (_staticTriples r +:+ (newline +:+ fragmentTriples)
                                      +:+ (newline +:+ metaData)) res in
                        let res := set_header "Content-Type" "application/trig" res in
                        if Z.of_nat index <? fc - 1 then
                          (* Cache older fragment that won't change over time *)
                          (Respond (set_header "Cache-Control"
                                      "public, max-age=31536000, inmutable" res), w)
                        else
                          (* Do not cache current fragment as it will get more data *)
                          (Respond (set_header "Cache-Control"
                                      "no-cache, no-store, must-revalidate" res), w)
                    end
                end
          end
      end
  end.

(** Whether an outcome is a redirect. *)
Definition isRedirectTo (url : string) (o : Outcome) : Prop :=
  exists res, o = Respond res /\ status res = 302 /\ headers res !! "Location" = Some url.

Definition isRedirect (o : Outcome) : bool :=
  match o with
  | Respond res => status res =? 302
  | Throw _ => false
  end.

End Methods.

(** ** The rest of the class, and observers for its state *)

Definition set_staticTriples (v : string) (r : RawData) : RawData :=
  mkRawData (_serverUrl r) (_name r) (_baseUri r) (_websocket r) (_fragmentsPath r)
    (_fragmentMaxSize r) (_byteCounter r) (_latestWindowsize r) (_latest r) (_latestTrig r)
    v (_prevEtag r) (_prevResponseBody r) (_license r) (lastFragment r).

Section Observers.
Context `{Externals}.

(** [setupStaticTriples(path)]: when the file yields triples, their TriG
    text becomes the static preamble; otherwise nothing changes. *)
Definition setupStaticTriples (path : string) (w : World) : World :=
  match getTriplesFromFile (disk w) path with
  | Some (prefixes, ts) =>
      with_self (set_staticTriples (formatTriples "application/trig" ts (Some prefixes))) w
  | None => w
  end.

(** Lines 58-67 of [init]: the entry built for an observation, when the
    three awaited calls succeed. *)
Definition entryOf (d : string) : option Entry :=
  match getGeneratedAtTimeValue d with
  | None => None
  | Some g =>
      match getTriplesFromString d with
      | None => None
      | Some (_, ts) => Some (mkEntry d ts (formatTriples "application/trig" ts None) g)
      end
  end.

(** The entries of the observations that [init] accepts, in arrival order. *)
Definition entries (ds : list string) : list Entry := omap entryOf ds.

(** The arguments with which an entry is handed to [storeData]. *)
Definition stored (e : Entry) : string * Z := (data e, gat e).

(** The TriG text of a window: each entry on a line of its own. *)
Definition windowTrig (l : list Entry) : string :=
  String.concat EmptyString (map (fun e => newline +:+ triplesTrig e) l).

(** How many more entries the window takes before it is full. *)
Definition room (w : World) : nat :=
  Z.to_nat (_latestWindowsize (self w) - Z.of_nat (length (_latest (self w)))).

End Observers.

(** What the fragment writer reads and writes: the folder, the cap, the
    byte counter, the open fragment and the files. *)
Definition writerState (w : World) : string * Z * Z * option string * gmap string string :=
  (_fragmentsPath (self w), _fragmentMaxSize (self w), _byteCounter (self w),
   lastFragment (self w), disk w).

(** The license links among the quads of a metadata graph. *)
Definition licenseLinks (quads : list quad) : list quad :=
  List.filter
    (fun q => term_eqb (q_predicate q) (namedNode "http://creativecommons.org/ns#license"))
    quads.

(** The total byte length of a list of payloads. *)
Definition totalBytes (ps : list (string * Z)) : Z :=
  fold_right (fun p acc => Z.of_nat (String.length (fst p)) + acc) 0 ps.

(** The payloads of a list, one after the other. *)
Definition payloads (ps : list (string * Z)) : string :=
  String.concat EmptyString (map fst ps).

(** ** The event loop

    What the class does when calls overlap.  [onData] does not await
    [init] (lines 49-51) and [init] does not await [storeData] (line 77),
    so [storeData] runs up to its [await] inside the synchronous block of
    [init], and lines 178-179 run later, when the append has completed. *)

(** An append that was started and has not completed yet: the path and
    the text. *)
Definition Append : Type := string * string.

(** The instance with its surroundings, and the appends in flight, oldest
    first. *)
Record Loop : Type := mkLoop {
  world : World;
  pending : list Append
}.

(** What happens next: an observation reaches the synchronous block of its
    [init], or the append in flight at position [k] completes. *)
Inductive event : Type :=
| Arrive (d : string)
| Settle (k : nat).

Section EventLoop.
Context `{Externals}.

(** Lines 171-177 of [storeData], up to the [await]: the test, the new
    fragment, and the append that is started on [lastFragment].  Appending
    to [undefined] throws: no append is in flight then. *)
Definition storeData_begin (_data : string) (_gat : Z) (w : World) : World * option Append :=
  let w1 :=
    if rotates w
    then
      (* Create new fragment *)
      with_self (fun r =>
        set_byteCounter 0
          (set_lastFragment
             (Some (_fragmentsPath r +:+ "/" +:+ toISOString _gat +:+ ".trig")) r)) w
    else w in
  (w1, match lastFragment (self w1) with
       | Some path => Some (path, _data)
       | None => None
       end).

(** The append has completed, and lines 178-179 run: the text is in the
    file and its bytes are counted. *)
Definition storeData_settle (op : Append) (w : World) : World :=
  let w2 := with_disk (appendToFile (fst op) (snd op)) w in
  let bytes := Z.of_nat (String.length (snd op)) in
  with_self (fun r => set_byteCounter (_byteCounter r + bytes) r) w2.

(** Lines 74-78 of [init], with [storeData] run up to its [await]. *)
Definition init_evict_begin (w : World) : World * option Append :=
  if Z.of_nat (length (_latest (self w))) >? _latestWindowsize (self w)
  then
    match pop (_latest (self w)) with
    | (Some o, rest) => storeData_begin (data o) (gat o) (with_self (set_latest rest) w)
    | (None, rest) => (with_self (set_latest rest) w, None)
    end
  else (w, None).

(** The synchronous block of [init] (lines 62-85) for an observation whose
    three awaited calls have succeeded; an observation for which one of
    them fails changes nothing. *)
Definition arrive (d : string) (s : Loop) : Loop :=
  match getGeneratedAtTimeValue d with
  | None => s
  | Some g =>
      match getTriplesFromString d with
      | None => s
      | Some (_, ts) =>
          let triplesTrig := formatTriples "application/trig" ts None in
          let started :=
            init_evict_begin
              (init_publish d (init_push (mkEntry d ts triplesTrig g) (world s))) in
          mkLoop (init_refresh (fst started)) (pending s ++ option_list (snd started))
      end
  end.

(** One step of the loop.  An append that is not in flight cannot
    complete: such a step does nothing. *)
Definition step (ev : event) (s : Loop) : Loop :=
  match ev with
  | Arrive d => arrive d s
  | Settle k =>
      match pending s !! k with
      | Some op => mkLoop (storeData_settle op (world s)) (delete k (pending s))
      | None => s
      end
  end.

(** A schedule: the steps in the order in which they happen. *)
Definition run (evs : list event) (s : Loop) : Loop :=
  fold_left (fun acc ev => step ev acc) evs s.

End EventLoop.

(** The observations of a schedule, in arrival order. *)
Definition arrivals (evs : list event) : list string :=
  omap (fun ev => match ev with Arrive d => Some d | Settle _ => None end) evs.

(** The schedule of observations that arrive one at a time: each append
    completes before the next observation arrives. *)
Definition quiescent (ds : list string) : list event :=
  flat_map (fun d => [Arrive d; Settle 0]) ds.

(** The schedule of one array handed to [onData]: every synchronous block
    runs before the first append completes. *)
Definition batch (ds : list string) : list event :=
  (map Arrive ds ++ map (fun _ => Settle 0) ds)%list.

(** Everything but the writer's state: the instance with the byte counter
    and the open fragment blanked, and the websocket channel. *)
Definition front (w : World) : RawData * list (string * string) :=
  (set_byteCounter 0 (set_lastFragment None (self w)), pushed w).

(** ** A test double of the collaborators

    Four observations [r1 .. r4], generated at the times [1 .. 4], whose
    ISO form is written [t1 .. t4]; the storage folder is listed in name
    order.  It serves to run the model on concrete requests. *)

Definition testClock : list (Z * string) := [(1, "t1"); (2, "t2"); (3, "t3"); (4, "t4")].

Definition testRecords : list (string * Z) := [("r1", 1); ("r2", 2); ("r3", 3); ("r4", 4)].

Definition assocZ (z : Z) (l : list (Z * string)) : option string :=
  snd <$> List.find (fun p => fst p =? z) l.

Definition assocS {A : Type} (s : string) (l : list (string * A)) : option A :=
  snd <$> List.find (fun p => String.eqb (fst p) s) l.

Definition testDouble : Externals := {|
  getGeneratedAtTimeValue := fun d => assocS d testRecords;
  getTriplesFromString := fun d => Some ([], [Quad (literal d) (literal d) (literal d) defaultGraph]);
  formatTriples := fun _ qs _ => String.concat ";" (map (fun q =>
      match q_predicate q, q_object q with
      | namedNode p, namedNode o => p +:+ "=" +:+ o
      | literal p, _ => p
      | _, _ => "."
      end) qs);
  getAllFragments := fun d path =>
    List.filter (fun f => bool_decide (is_Some (d !! (path +:+ "/" +:+ f))))
      ["t1.trig"; "t2.trig"; "t3.trig"; "t4.trig"];
  getTriplesFromFile := fun d path => (fun _ => ([], [])) <$> d !! path;
  md5 := fun s => "md5-" +:+ s;
  dateParse := fun s => assocS s (map (fun p => (snd p, fst p)) testClock);
  toISOString := fun z => default "t?" (assocZ z testClock);
  toUTCString := fun z => default "t?" (assocZ z testClock)
|}.

Definition testConfig (W cap : Z) : Config :=
  mkConfig "obs" false "frags" cap W EmptyString.

(** A new instance over an empty storage folder. *)
Definition testWorld (W cap : Z) : World :=
  mkWorld (constructor (testConfig W cap) "http://localhost/") ∅ [].

(** An instance over a storage folder that holds the fragments [t1] and
    [t3]. *)
Definition testArchive : World :=
  mkWorld (constructor (testConfig 2 100) "http://localhost/")
    (<["frags/t1.trig" := "r1"]> (<["frags/t3.trig" := "r3"]> ∅)) [].

(** * Properties *)

(** ** The window *)

(** Case analysis on a comparison [a > b] of the code. *)
Ltac case_gtb :=
  match goal with
  | |- context [?a >? ?b] => destruct (Z.gtb_spec a b)
  end.

Section Window.
Context `{Externals}.

Lemma pop_push {A : Type} (a : list A) (x : A) : pop (push a x) = (Some x, a).
Proof.
  unfold pop, push. now rewrite last_snoc, removelast_last.
Qed.

Lemma storeData_latest (d : string) (g : Z) (w : World) :
  _latest (self (storeData d g w)) = _latest (self w).
Proof.
  unfold storeData.
  destruct (rotates w); simpl; destruct (lastFragment (self w)); reflexivity.
Qed.

Lemma storeData_latestWindowsize (d : string) (g : Z) (w : World) :
  _latestWindowsize (self (storeData d g w)) = _latestWindowsize (self w).
Proof.
  unfold storeData.
  destruct (rotates w); simpl; destruct (lastFragment (self w)); reflexivity.
Qed.

Lemma init_publish_self (d : string) (w : World) : self (init_publish d w) = self w.
Proof. unfold init_publish. now destruct (_websocket (self w)). Qed.

(** What [init_evict] does right after a push: the pushed entry is the one
    popped. *)
Lemma init_evict_after_push (d : string) (e : Entry) (w : World) :
  init_evict (init_publish d (init_push e w)) =
  if Z.of_nat (length (_latest (self w) ++ [e])) >? _latestWindowsize (self w)
  then storeData (data e) (gat e)
         (with_self (set_latest (_latest (self w))) (init_publish d (init_push e w)))
  else init_publish d (init_push e w).
Proof.
  unfold init_evict. rewrite init_publish_self. simpl.
  unfold push. rewrite last_snoc, removelast_last. reflexivity.
Qed.

Lemma init_evict_latest (d : string) (e : Entry) (w : World) :
  _latest (self (init_evict (init_publish d (init_push e w)))) =
  if Z.of_nat (length (_latest (self w) ++ [e])) >? _latestWindowsize (self w)
  then _latest (self w)
  else (_latest (self w) ++ [e])%list.
Proof.
  rewrite init_evict_after_push.
  destruct (_ >? _).
  - now rewrite storeData_latest.
  - now rewrite init_publish_self.
Qed.

Lemma init_evict_latestWindowsize (d : string) (e : Entry) (w : World) :
  _latestWindowsize (self (init_evict (init_publish d (init_push e w)))) =
  _latestWindowsize (self w).
Proof.
  rewrite init_evict_after_push.
  destruct (_ >? _).
  - rewrite storeData_latestWindowsize. simpl. now rewrite init_publish_self.
  - now rewrite init_publish_self.
Qed.

Lemma init_latestWindowsize (d : string) (w : World) :
  _latestWindowsize (self (init d w)) = _latestWindowsize (self w).
Proof.
  unfold init.
  destruct (getGeneratedAtTimeValue d) as [g|]; [|reflexivity].
  destruct (getTriplesFromString d) as [[pf ts]|]; [|reflexivity].
  unfold init_refresh. simpl. apply init_evict_latestWindowsize.
Qed.

Lemma onData_cons (d : string) (ds : list string) (w : World) :
  onData (d :: ds) w = onData ds (init d w).
Proof. reflexivity. Qed.

Lemma onData_snoc (ds : list string) (d : string) (w : World) :
  onData (ds ++ [d]) w = init d (onData ds w).
Proof. unfold onData. now rewrite fold_left_app. Qed.

Lemma onData_latestWindowsize (ds : list string) (w : World) :
  _latestWindowsize (self (onData ds w)) = _latestWindowsize (self w).
Proof.
  revert w. induction ds as [|d ds IH]; intros w; [reflexivity|].
  rewrite onData_cons, IH. apply init_latestWindowsize.
Qed.

(** The window after [init]: unchanged when the record is rejected or the
    window was full, one entry longer otherwise. *)
Lemma init_latest (d : string) (w : World) :
  _latest (self (init d w)) = _latest (self w) \/
  (exists e, data e = d /\ _latest (self (init d w)) = (_latest (self w) ++ [e])%list /\
             Z.of_nat (length (_latest (self w) ++ [e])) <= _latestWindowsize (self w)).
Proof.
  unfold init.
  destruct (getGeneratedAtTimeValue d) as [g|]; [|now left].
  destruct (getTriplesFromString d) as [[pf ts]|]; [|now left].
  unfold init_refresh. simpl. rewrite init_evict_latest.
  destruct (_ >? _) eqn:E; [now left|].
  right. eexists. split; [|split]; [| reflexivity | lia]. reflexivity.
Qed.

(** The window bound is kept by [init]. *)
Lemma init_bound (d : string) (w : World) :
  Z.of_nat (length (_latest (self w))) <= _latestWindowsize (self w) ->
  Z.of_nat (length (_latest (self (init d w)))) <= _latestWindowsize (self w).
Proof.
  intros Hb. destruct (init_latest d w) as [E | (e & _ & E & Hle)]; rewrite E; assumption.
Qed.

Lemma onData_bound (ds : list string) (w : World) :
  Z.of_nat (length (_latest (self w))) <= _latestWindowsize (self w) ->
  Z.of_nat (length (_latest (self (onData ds w)))) <= _latestWindowsize (self w).
Proof.
  revert w. induction ds as [|d ds IH]; intros w Hb; [exact Hb|].
  rewrite onData_cons, <- (init_latestWindowsize d w). apply IH.
  rewrite init_latestWindowsize. now apply init_bound.
Qed.

(** A full window is left as it is by [init]. *)
Lemma init_full (d : string) (w : World) :
  Z.of_nat (length (_latest (self w))) = _latestWindowsize (self w) ->
  _latest (self (init d w)) = _latest (self w).
Proof.
  intros Hfull. destruct (init_latest d w) as [E | (e & _ & E & Hle)]; [exact E|].
  rewrite length_app in Hle. simpl in Hle. lia.
Qed.

Lemma init_push_publish_undo (d : string) (e : Entry) (w : World) :
  with_self (set_latest (_latest (self w))) (init_publish d (init_push e w)) =
  init_publish d w.
Proof.
  destruct w as [r dk ps]. destruct r.
  unfold init_publish, init_push, with_self, pushData. simpl.
  destruct _websocket0; reflexivity.
Qed.

(** Processing a record in a full window: the record itself is stored. *)
Lemma init_full_step (d : string) (g : Z) (pf : Prefixes) (ts : list quad) (w : World) :
  Z.of_nat (length (_latest (self w))) = _latestWindowsize (self w) ->
  getGeneratedAtTimeValue d = Some g ->
  getTriplesFromString d = Some (pf, ts) ->
  evicted d w = Some (mkEntry d ts (formatTriples "application/trig" ts None) g) /\
  init d w = init_refresh (storeData d g (init_publish d w)).
Proof.
  intros Hfull Hg Hts. unfold evicted, init. rewrite Hg, Hts.
  split.
  - rewrite init_publish_self. simpl. unfold push.
    rewrite length_app. simpl.
    case_gtb; [|exfalso; lia].
    now rewrite last_snoc.
  - rewrite init_evict_after_push, length_app. simpl.
    case_gtb; [|exfalso; lia].
    now rewrite init_push_publish_undo.
Qed.

Lemma onData_full (ds : list string) (w : World) :
  Z.of_nat (length (_latest (self w))) = _latestWindowsize (self w) ->
  _latest (self (onData ds w)) = _latest (self w).
Proof.
  revert w. induction ds as [|d ds IH]; intros w Hfull; [reflexivity|].
  rewrite onData_cons, IH.
  - now apply init_full.
  - now rewrite init_latestWindowsize, init_full.
Qed.

(** C2. For every sequence of observations fed to a new instance whose
    window size [W] is not negative, the window holds at most [W] entries
    once [init] has processed a record, and at most [W + 1] entries at each
    step inside [init] (after the push, after the websocket push, after the
    eviction, after the refresh). *)
Theorem window_bound (config : Config) (serverUrl : string)
    (files : gmap string string) (ds : list string) (d : string) (e : Entry) :
  0 <= cfg_latestWindowsize config ->
  let W := cfg_latestWindowsize config in
  let size := fun w => Z.of_nat (length (_latest (self w))) in
  let w := onData ds (mkWorld (constructor config serverUrl) files []) in
  size w <= W /\
  size (init d w) <= W /\
  size (init_push e w) <= W + 1 /\
  size (init_publish d (init_push e w)) <= W + 1 /\
  size (init_evict (init_publish d (init_push e w))) <= W /\
  size (init_refresh (init_evict (init_publish d (init_push e w)))) <= W.
Proof.
  intros HW W size w.
  assert (HWw : _latestWindowsize (self w) = W)
    by (unfold w; now rewrite onData_latestWindowsize).
  assert (Hw : size w <= W).
  { unfold size, w.
    change W with (_latestWindowsize (self (mkWorld (constructor config serverUrl) files []))).
    apply onData_bound. simpl. exact HW. }
  assert (Hpush : size (init_push e w) <= W + 1).
  { unfold size, init_push. simpl. unfold push. rewrite length_app. simpl.
    unfold size in Hw. lia. }
  assert (Hevict : size (init_evict (init_publish d (init_push e w))) <= W).
  { unfold size. rewrite init_evict_latest, HWw.
    destruct (_ >? _) eqn:E; [exact Hw | lia]. }
  repeat split.
  - exact Hw.
  - unfold size. rewrite <- HWw. apply init_bound. rewrite HWw. exact Hw.
  - exact Hpush.
  - unfold size. rewrite init_publish_self. exact Hpush.
  - exact Hevict.
  - exact Hevict.
Qed.

(** C10. Once the window holds [W] entries, no later observation enters
    it: after any further sequence of observations the window is the same,
    and each accepted observation is itself the entry handed to
    [storeData], so that [init] amounts to publishing it, storing it and
    rebuilding the TriG text of the unchanged window. *)
Theorem full_window_is_frozen (w : World) (ds : list string) :
  Z.of_nat (length (_latest (self w))) = _latestWindowsize (self w) ->
  let w' := onData ds w in
  _latest (self w') = _latest (self w) /\
  forall d, _latest (self (init d w')) = _latest (self w) /\
    forall g pf ts,
      getGeneratedAtTimeValue d = Some g ->
      getTriplesFromString d = Some (pf, ts) ->
      evicted d w' = Some (mkEntry d ts (formatTriples "application/trig" ts None) g) /\
      init d w' = init_refresh (storeData d g (init_publish d w')).
Proof.
  intros Hfull w'.
  assert (Hsame : _latest (self w') = _latest (self w)) by now apply onData_full.
  assert (Hfull' : Z.of_nat (length (_latest (self w'))) = _latestWindowsize (self w')).
  { unfold w'. now rewrite onData_latestWindowsize, onData_full. }
  split; [exact Hsame|].
  intros d. split.
  - now rewrite init_full.
  - intros g pf ts Hg Hts. now apply (init_full_step d g pf ts).
Qed.

(** [evicted] names the argument of the call of [storeData] in [init]. *)
Lemma init_evicted (d : string) (w : World) (o : Entry) :
  evicted d w = Some o ->
  init d w = init_refresh (storeData (data o) (gat o) (init_publish d w)).
Proof.
  unfold evicted, init.
  destruct (getGeneratedAtTimeValue d) as [g|]; [|discriminate].
  destruct (getTriplesFromString d) as [[pf ts]|]; [|discriminate].
  rewrite init_evict_after_push, init_publish_self. simpl. unfold push.
  destruct (_ >? _); [|discriminate].
  rewrite last_snoc. intros [= <-]. now rewrite init_push_publish_undo.
Qed.

(** Whenever [init] evicts, the entry it hands to [storeData] is the one it
    has just pushed, and the oldest entry stays at the head of the window. *)
Lemma evicted_is_newest (d : string) (w : World) (o : Entry) :
  evicted d w = Some o ->
  data o = d /\ _latest (self (init d w)) = _latest (self w).
Proof.
  unfold evicted, init.
  destruct (getGeneratedAtTimeValue d) as [g|]; [|discriminate].
  destruct (getTriplesFromString d) as [[pf ts]|]; [|discriminate].
  unfold init_refresh. simpl. rewrite init_evict_latest, init_publish_self. simpl.
  unfold push. destruct (_ >? _); [|discriminate].
  rewrite last_snoc. intros [= <-]. now split.
Qed.

End Window.

(** C1. The scenario of the specification, [W = 2] and observations
    [r1 .. r3] in this order, run on the code: the third observation makes
    the window overflow, the entry handed to [storeData] is [r3] itself,
    it lands in a fragment named by [t3], and the window still holds [r1]
    and [r2].  A first-in first-out window would have evicted [r1]. *)
Theorem eviction_takes_the_newest :
  let w2 := @onData testDouble ["r1"; "r2"] (testWorld 2 100) in
  let w3 := @init testDouble "r3" w2 in
  map data (_latest (self w2)) = ["r1"; "r2"] /\
  data <$> @evicted testDouble "r3" w2 = Some "r3" /\
  data <$> head (_latest (self w2)) = Some "r1" /\
  map data (_latest (self w3)) = ["r1"; "r2"] /\
  map_to_list (disk w3) = [("frags/t3.trig", "r3")].
Proof. vm_compute. repeat split; reflexivity. Qed.

(** The window bound at work: [W = 2], four observations. *)
Lemma window_bound_witness :
  0 <= 2 /\
  Z.of_nat (length (_latest (self (@onData testDouble ["r1"; "r2"; "r3"; "r4"] (testWorld 2 100))))) <= 2.
Proof.
  split; [lia|].
  exact (proj1 (@window_bound testDouble (testConfig 2 100) "http://localhost/" ∅
                  ["r1"; "r2"; "r3"; "r4"] "r1"
                  (mkEntry "r1" [] EmptyString 1) ltac:(simpl; lia))).
Defined.

(** A full window stays as it is: [W = 2], filled by [r1] and [r2]. *)
Lemma full_window_is_frozen_witness :
  let w := @onData testDouble ["r1"; "r2"] (testWorld 2 100) in
  Z.of_nat (length (_latest (self w))) = _latestWindowsize (self w) /\
  _latest (self (@onData testDouble ["r3"; "r4"] w)) = _latest (self w).
Proof.
  split; [reflexivity|].
  exact (proj1 (@full_window_is_frozen testDouble
                  (@onData testDouble ["r1"; "r2"] (testWorld 2 100)) ["r3"; "r4"]
                  ltac:(reflexivity))).
Defined.

(** ** The fragment writer *)

Section Writer.
Context `{Externals}.

Lemma rotates_iff (w : World) :
  rotates w = true <->
  _byteCounter (self w) = 0 \/ _byteCounter (self w) > _fragmentMaxSize (self w).
Proof.
  unfold rotates. rewrite orb_true_iff, Z.eqb_eq, Z.gtb_ltb, Z.ltb_lt. lia.
Qed.

Lemma storeData_rotate (payload : string) (ts : Z) (w : World) :
  rotates w = true ->
  let w' := storeData payload ts w in
  lastFragment (self w') = Some (freshFragment ts w) /\
  _byteCounter (self w') = Z.of_nat (String.length payload) /\
  disk w' = appendToFile (freshFragment ts w) payload (disk w).
Proof.
  intros Hr. unfold storeData. rewrite Hr. simpl. repeat split.
Qed.

Lemma storeData_append (payload : string) (ts : Z) (w : World) (f : string) :
  rotates w = false ->
  lastFragment (self w) = Some f ->
  let w' := storeData payload ts w in
  lastFragment (self w') = Some f /\
  _byteCounter (self w') = _byteCounter (self w) + Z.of_nat (String.length payload) /\
  disk w' = appendToFile f payload (disk w).
Proof.
  intros Hr Hf. unfold storeData. rewrite Hr. simpl. rewrite Hf. simpl.
  repeat split. exact Hf.
Qed.

Lemma storeData_inv (payload : string) (ts : Z) (w : World) :
  writerInv w -> writerInv (storeData payload ts w).
Proof.
  intros [Hpos Hnone]. unfold writerInv.
  destruct (rotates w) eqn:Hr.
  - destruct (storeData_rotate payload ts w Hr) as (Hf & Hc & _).
    rewrite Hf, Hc. split; [lia | discriminate].
  - destruct (lastFragment (self w)) as [f|] eqn:Hf.
    + destruct (storeData_append payload ts w f Hr Hf) as (Hf' & Hc & _).
      rewrite Hf', Hc. split; [lia | discriminate].
    + exfalso. specialize (Hnone eq_refl).
      assert (rotates w = true) by (apply rotates_iff; now left). congruence.
Qed.

Lemma storeAll_inv (ps : list (string * Z)) (w : World) :
  writerInv w -> writerInv (storeAll ps w).
Proof.
  revert w. induction ps as [|p ps IH]; intros w Hw; [exact Hw|].
  simpl. apply IH. now apply storeData_inv.
Qed.

Lemma storeData_tracks (payload : string) (ts : Z) (w : World) :
  payload <> EmptyString -> counterTracksOpen w ->
  counterTracksOpen (storeData payload ts w).
Proof.
  intros Hne [Hinv Hzero]. split; [now apply storeData_inv|].
  assert (0 < Z.of_nat (String.length payload))
    by (destruct payload; [congruence | simpl; lia]).
  destruct Hinv as [Hpos Hnone].
  destruct (rotates w) eqn:Hr.
  - destruct (storeData_rotate payload ts w Hr) as (_ & Hc & _). rewrite Hc. lia.
  - destruct (lastFragment (self w)) as [f|] eqn:Hf.
    + destruct (storeData_append payload ts w f Hr Hf) as (_ & Hc & _). rewrite Hc. lia.
    + specialize (Hnone eq_refl).
      assert (rotates w = true) by (apply rotates_iff; now left). congruence.
Qed.

Lemma storeAll_tracks (ps : list (string * Z)) (w : World) :
  Forall (fun p => fst p <> EmptyString) ps -> counterTracksOpen w ->
  counterTracksOpen (storeAll ps w).
Proof.
  revert w. induction ps as [|p ps IH]; intros w Hne Hw; [exact Hw|].
  inversion Hne; subst. simpl. apply IH; [assumption|]. now apply storeData_tracks.
Qed.

(** Calls of [storeData] each of which completes before the next one
    starts, on a new instance: a new fragment, named by the timestamp and
    with the counter reset to 0, is started exactly when the byte counter
    is 0 or exceeds the maximum fragment size; the counter is 0 when no
    fragment is open and, provided every payload written so far was
    non-empty, only then.  Otherwise the payload is appended to the open
    fragment.  In both cases the counter grows by the byte length of the
    payload. *)
Theorem fragment_rotation (config : Config) (serverUrl : string)
    (files : gmap string string) (ps : list (string * Z)) (payload : string) (ts : Z) :
  let w := storeAll ps (mkWorld (constructor config serverUrl) files []) in
  let w' := storeData payload ts w in
  let bytes := Z.of_nat (String.length payload) in
  (rotates w = true <->
     _byteCounter (self w) = 0 \/ _byteCounter (self w) > _fragmentMaxSize (self w)) /\
  (lastFragment (self w) = None -> _byteCounter (self w) = 0) /\
  (Forall (fun p => fst p <> EmptyString) ps -> rotationAsSpecified w) /\
  (rotates w = true ->
     lastFragment (self w') = Some (freshFragment ts w) /\
     _byteCounter (self w') = 0 + bytes /\
     disk w' = appendToFile (freshFragment ts w) payload (disk w)) /\
  (rotates w = false ->
     exists f, lastFragment (self w) = Some f /\
       lastFragment (self w') = Some f /\
       _byteCounter (self w') = _byteCounter (self w) + bytes /\
       disk w' = appendToFile f payload (disk w)).
Proof.
  intros w w' bytes.
  assert (Hinit : counterTracksOpen (mkWorld (constructor config serverUrl) files [])).
  { repeat split; simpl; try lia. }
  assert (Hinv : writerInv w) by (apply storeAll_inv, Hinit).
  split; [apply rotates_iff|].
  split; [apply Hinv|].
  split; [|split].
  - intros Hne. destruct (storeAll_tracks ps _ Hne Hinit) as [_ Hzero].
    fold w in Hzero. unfold rotationAsSpecified. rewrite rotates_iff.
    destruct Hinv as [_ Hnone]. intuition.
  - intros Hr. apply (storeData_rotate payload ts w Hr).
  - intros Hr. destruct (lastFragment (self w)) as [f|] eqn:Hf.
    + exists f. split; [reflexivity|]. now apply storeData_append.
    + exfalso. destruct Hinv as [_ Hnone]. specialize (Hnone Hf).
      assert (rotates w = true) by (apply rotates_iff; now left). congruence.
Qed.

End Writer.

(** After an empty payload the fragment [t1] is open and its counter, 0,
    does not exceed the cap, yet the next call starts the fragment [t2]
    and leaves [t1] empty. *)
Lemma rotation_after_empty_payload :
  let w := @storeData testDouble EmptyString 1 (testWorld 2 100) in
  let w' := @storeData testDouble "r2" 2 w in
  lastFragment (self w) = Some "frags/t1.trig" /\
  _byteCounter (self w) = 0 /\
  _fragmentMaxSize (self w) = 100 /\
  lastFragment (self w') = Some "frags/t2.trig" /\
  disk w' !! "frags/t1.trig" = Some EmptyString /\
  ~ rotationAsSpecified w.
Proof.
  repeat split; try (vm_compute; reflexivity).
  unfold rotationAsSpecified. intros [Hdir _].
  assert (Hr : rotates (@storeData testDouble EmptyString 1 (testWorld 2 100)) = true)
    by (vm_compute; reflexivity).
  destruct (Hdir Hr) as [Hopen | Hcap].
  - vm_compute in Hopen. discriminate.
  - vm_compute in Hcap. discriminate.
Qed.

(** ** The fragment index *)

Section Locate.

Lemma midpoint_between (lo hi : nat) :
  (S lo < hi)%nat -> (lo < midpoint lo hi < hi)%nat.
Proof.
  intros Hlt. unfold midpoint.
  pose proof (Nat.div2_odd (lo + hi)) as E.
  destruct (Nat.odd (lo + hi)); cbn [Nat.b2n] in E; lia.
Qed.

(** The loop stays inside the positions it was given. *)
Lemma bsearch_range (t : Z) (xs : list Z) (lo hi : nat) :
  (lo < hi)%nat -> (lo <= bsearch t xs lo hi < hi)%nat.
Proof.
  funelim (bsearch t xs lo hi); intros Hlt.
  - lia.
  - pose proof (midpoint_between lo hi l0). lia.
  - pose proof (midpoint_between lo hi l0). lia.
Qed.

(** The loop invariant: the target is at or after position [lo] and before
    position [hi]; the result brackets the target in the same way with the
    position that follows it. *)
Lemma bsearch_brackets (t : Z) (xs : list Z) (lo hi : nat) :
  (lo < hi <= length xs)%nat ->
  nth lo xs 0 <= t ->
  ((hi < length xs)%nat -> t < nth hi xs 0) ->
  let i := bsearch t xs lo hi in
  nth i xs 0 <= t /\ ((S i < length xs)%nat -> t < nth (S i) xs 0).
Proof.
  funelim (bsearch t xs lo hi); intros Hlt Hlo Hhi; simpl.
  - assert (hi = S lo) by lia. subst hi. split; [exact Hlo | exact Hhi].
  - pose proof (midpoint_between lo hi l0).
    apply H; [lia | | exact Hhi].
    now apply Z.leb_le.
  - pose proof (midpoint_between lo hi l0).
    apply H; [lia | exact Hlo |].
    intros _. now apply Z.leb_gt.
Qed.

Lemma ascendingb_tail (a : Z) (bs : list Z) :
  ascendingb (a :: bs) = true -> ascendingb bs = true.
Proof.
  destruct bs as [|b bs]; [reflexivity|].
  cbn [ascendingb]. intros Hab. now apply andb_true_iff in Hab.
Qed.

Lemma ascendingb_head_lt (bs : list Z) :
  forall a j, ascendingb (a :: bs) = true -> (j < length bs)%nat -> a < nth j bs 0.
Proof.
  induction bs as [|b bs IH]; intros a j Hasc Hj; [simpl in Hj; lia|].
  cbn [ascendingb] in Hasc. apply andb_true_iff in Hasc as [Hab Hrest].
  apply Z.ltb_lt in Hab.
  destruct j as [|j]; [exact Hab|].
  simpl in Hj. simpl. specialize (IH b j Hrest). lia.
Qed.

(** Adjacent order gives the order of any two positions. *)
Lemma ascendingb_nth (bs : list Z) :
  forall i j, ascendingb bs = true -> (i < j < length bs)%nat ->
    nth i bs 0 < nth j bs 0.
Proof.
  induction bs as [|a bs IH]; intros i j Hasc Hij; [simpl in Hij; lia|].
  destruct j as [|j]; [lia|].
  destruct i as [|i].
  - simpl. apply ascendingb_head_lt; [exact Hasc | simpl in Hij; lia].
  - simpl. apply IH; [now apply ascendingb_tail in Hasc | simpl in Hij; lia].
Qed.

Lemma lookup_nth (bs : list Z) (i : nat) (b : Z) :
  bs !! i = Some b -> nth i bs 0 = b /\ (i < length bs)%nat.
Proof.
  intros Hi. split.
  - now apply nth_lookup_Some with (d := 0) in Hi.
  - now apply lookup_lt_Some in Hi.
Qed.

Lemma lookup_of_nth (bs : list Z) (i : nat) :
  (i < length bs)%nat -> bs !! i = Some (nth i bs 0).
Proof.
  intros Hi. destruct (nth_lookup_or_length bs i 0) as [E | Hge]; [exact E | lia].
Qed.

(** What the search returns on a non-empty list, sorted or not: an entry of
    the list with its position. *)
Lemma dateBinarySearch_lookup (t : Z) (bs : list Z) :
  bs <> [] ->
  exists b i, dateBinarySearch t bs = Some (b, i) /\ bs !! i = Some b.
Proof.
  destruct bs as [|b0 bs]; [congruence|]. intros _.
  unfold dateBinarySearch.
  destruct (t <? b0); [now exists b0, 0%nat|].
  eexists _, _. split; [reflexivity|].
  apply lookup_of_nth.
  apply bsearch_range. simpl. lia.
Qed.

(** On an ascending list whose first entry is at most the target, the loop
    ends on the last position whose entry is at most the target. *)
Lemma bsearch_greatest (t : Z) (xs : list Z) :
  (0 < length xs)%nat ->
  ascendingb xs = true ->
  nth 0 xs 0 <= t ->
  let i := bsearch t xs 0 (length xs) in
  (i < length xs)%nat /\ nth i xs 0 <= t /\
  forall j, (j < length xs)%nat -> nth j xs 0 <= t -> (j <= i)%nat.
Proof.
  intros Hlen Hasc H0 i.
  pose proof (bsearch_range t xs 0 (length xs) Hlen) as Hrange.
  pose proof (bsearch_brackets t xs 0 (length xs)) as Hbr. cbv zeta in Hbr.
  destruct Hbr as [Hle Hnext]; [lia | lia | lia |].
  fold i in Hrange, Hle, Hnext.
  split; [lia|]. split; [exact Hle|].
  intros j Hj Hjt.
  destruct (Nat.le_gt_cases j i) as [Hji | Hij]; [exact Hji|].
  exfalso.
  assert (Hs : (S i < length xs)%nat) by lia.
  specialize (Hnext Hs).
  destruct (Nat.eq_dec j (S i)) as [-> | Hne]; [lia|].
  assert (nth (S i) xs 0 < nth j xs 0) by (apply ascendingb_nth; [exact Hasc | lia]).
  lia.
Qed.

(** C4. On boundary times [b_0 < b_1 < ... < b_n] the search returns the
    largest boundary that is at most the query time [t], with its
    zero-based position; when [t] is before [b_0] it returns [b_0] with
    position 0. *)
Theorem locate_correct (t : Z) (bs : list Z) (b0 : Z) :
  head bs = Some b0 ->
  ascendingb bs = true ->
  exists b i,
    dateBinarySearch t bs = Some (b, i) /\
    bs !! i = Some b /\
    (b0 <= t -> b <= t /\ forall j bj, bs !! j = Some bj -> bj <= t -> bj <= b) /\
    (t < b0 -> b = b0 /\ i = 0%nat).
Proof.
  intros Hhd Hasc.
  destruct bs as [|a bs']; [discriminate|]. injection Hhd as ->.
  unfold dateBinarySearch.
  destruct (Z.ltb_spec t b0) as [Hlt | Hge].
  - exists b0, 0%nat. repeat split; try reflexivity; lia.
  - set (xs := b0 :: bs') in *.
    assert (Hlen : (0 < length xs)%nat) by (subst xs; simpl; lia).
    assert (H0 : nth 0 xs 0 = b0) by reflexivity.
    clearbody xs.
    destruct (bsearch_greatest t xs Hlen Hasc) as (Hi & Hle & Hmax); [lia|].
    set (i := bsearch t xs 0 (length xs)) in *.
    exists (nth i xs 0), i.
    split; [reflexivity|].
    split; [now apply lookup_of_nth|].
    split; [|lia].
    intros _. split; [exact Hle|].
    intros j bj Hj Hbj. apply lookup_nth in Hj as [<- Hjlen].
    specialize (Hmax j Hjlen Hbj).
    destruct (Nat.eq_dec j i) as [-> | Hne]; [lia|].
    apply Z.lt_le_incl. apply ascendingb_nth; [exact Hasc | lia].
Qed.

(** A boundary time is located at itself. *)
Lemma locate_boundary (bs : list Z) (b : Z) (k : nat) :
  ascendingb bs = true ->
  bs !! k = Some b ->
  dateBinarySearch b bs = Some (b, k).
Proof.
  intros Hasc Hk.
  apply lookup_nth in Hk as [Hb Hklen].
  destruct bs as [|b0 bs'] eqn:Hbs; [simpl in Hklen; lia|]. rewrite <- Hbs in *.
  assert (H0 : nth 0 bs 0 = b0) by now rewrite Hbs.
  assert (Hge : b0 <= b).
  { destruct k as [|k]; [lia|].
    assert (nth 0 bs 0 < nth (S k) bs 0) by (apply ascendingb_nth; [exact Hasc | lia]).
    lia. }
  assert (Hsearch : dateBinarySearch b bs =
                    Some (nth (bsearch b bs 0 (length bs)) bs 0, bsearch b bs 0 (length bs))).
  { rewrite Hbs at 1. unfold dateBinarySearch.
    destruct (Z.ltb_spec b b0) as [Hlt | _]; [lia|]. now rewrite <- Hbs. }
  rewrite Hsearch.
  destruct (bsearch_greatest b bs) as (Hi & Hle & Hmax); [lia | exact Hasc | lia |].
  set (i := bsearch b bs 0 (length bs)) in *.
  specialize (Hmax k Hklen ltac:(lia)).
  destruct (Nat.eq_dec k i) as [<- | Hne]; [now rewrite Hb|].
  exfalso.
  assert (nth k bs 0 < nth i bs 0) by (apply ascendingb_nth; [exact Hasc | lia]).
  lia.
Qed.

End Locate.

(** The search on the boundary times [10 < 20 < 30]. *)
Lemma locate_correct_witness :
  head [10; 20; 30] = Some 10 /\ ascendingb [10; 20; 30] = true /\
  exists b i, dateBinarySearch 25 [10; 20; 30] = Some (b, i) /\ [10; 20; 30] !! i = Some b.
Proof.
  split; [reflexivity|]. split; [reflexivity|].
  destruct (locate_correct 25 [10; 20; 30] 10 eq_refl eq_refl) as (b & i & Hs & Hi & _).
  now exists b, i.
Defined.

(** ** The pagination metadata *)

Section Metadata.
Context `{Externals}.

(** C8. For every index [i] up to the number of fragments,
    [createMetadata] succeeds and its graph holds a [hydra:previous] link
    exactly when [i > 0]: none at index 0, and for [i > 0] one link, whose
    target is the time in the name of the fragment at position [i - 1] of
    the listing. *)
Theorem previous_link (subject : string) (index : nat) (w : World) :
  (index <= length (getAllFragments (disk w) (_fragmentsPath (self w))))%nat ->
  exists quads,
    createMetadataQuads subject index w = Some quads /\
    createMetadata subject index w = Some (formatTriples "application/trig" quads None) /\
    (previousLinks quads <> [] <-> (0 < index)%nat) /\
    (index = 0%nat -> previousLinks quads = []) /\
    ((0 < index)%nat ->
       exists f,
         getAllFragments (disk w) (_fragmentsPath (self w)) !! (index - 1)%nat = Some f /\
         previousLinks quads =
           [Quad (namedNode subject) (namedNode hydra_previous)
              (namedNode (_serverUrl (self w) +:+ _name (self w) +:+ "/fragments?time="
                          +:+ substring0 f (indexOf f ".trig")))
              (namedNode "#Metadata")]).
Proof.
  intros Hidx. unfold createMetadata, createMetadataQuads.
  destruct (Nat.ltb_spec 0 index) as [Hpos | Hzero].
  - destruct (getAllFragments (disk w) (_fragmentsPath (self w)) !! (index - 1)%nat)
      as [f|] eqn:Hf.
    2: { apply lookup_ge_None in Hf. lia. }
    eexists. split; [reflexivity|]. split; [reflexivity|].
    assert (Hlinks : forall quads link,
      previousLinks quads = [] ->
      term_eqb (q_predicate link) (namedNode hydra_previous) = true ->
      previousLinks (push quads link) = [link]).
    { intros quads link Hnone Hlink. unfold previousLinks, push in *.
      rewrite List.filter_app, Hnone. simpl. now rewrite Hlink. }
    rewrite Hlinks; [| destruct (String.eqb (_license (self w)) EmptyString); reflexivity
                     | reflexivity].
    split; [split; [intros _; exact Hpos | discriminate]|].
    split; [lia|].
    intros _. exists f. split; reflexivity.
  - assert (index = 0%nat) as -> by lia.
    eexists. split; [reflexivity|]. split; [reflexivity|].
    destruct (String.eqb (_license (self w)) EmptyString); simpl;
      (split; [split; [intros Hne; now elim Hne | lia] |]);
      (split; [reflexivity | lia]).
Qed.

End Metadata.

(** The links of the test archive: none for its first fragment, the first
    fragment for its second one. *)
Lemma previous_link_witness :
  (1 <= length (@getAllFragments testDouble (disk testArchive) "frags"))%nat /\
  exists quads,
    @createMetadataQuads testDouble "http://localhost/obs/fragments?time=t3" 1 testArchive
      = Some quads /\
    previousLinks quads =
      [Quad (namedNode "http://localhost/obs/fragments?time=t3") (namedNode hydra_previous)
         (namedNode "http://localhost/obs/fragments?time=t1") (namedNode "#Metadata")].
Proof.
  split; [vm_compute; lia|].
  destruct (@previous_link testDouble "http://localhost/obs/fragments?time=t3" 1 testArchive
              ltac:(vm_compute; lia)) as (quads & Hq & _ & _ & _ & Hprev).
  exists quads. split; [exact Hq|].
  destruct (Hprev ltac:(lia)) as (f & Hf & Hlinks).
  vm_compute in Hf. injection Hf as <-. exact Hlinks.
Defined.

(** ** The historical reader *)

Section Historical.
Context `{Externals}.

Lemma dateBinarySearch_Some (t : Z) (bs : list Z) (b : Z) (i : nat) :
  dateBinarySearch t bs = Some (b, i) -> bs !! i = Some b.
Proof.
  intros Hs.
  destruct bs as [|b0 bs'] eqn:Hbs; [discriminate|]. rewrite <- Hbs in *.
  destruct (dateBinarySearch_lookup t bs) as (b' & i' & Hs' & Hi); [now rewrite Hbs|].
  congruence.
Qed.

(** The handler never changes the instance or the storage. *)
Lemma getFragments_world (time : option string) (now : Z) (w : World) :
  snd (getFragments time now w) = w.
Proof.
  unfold getFragments.
  repeat (match goal with
          | |- context [match ?x with _ => _ end] => destruct x
          end; try reflexivity).
Qed.

(** The handler on a query time that differs from the located boundary. *)
Lemma getFragments_off_boundary (s : string) (t now : Z) (w : World)
    (bs : list Z) (b : Z) (i : nat) :
  dateParse s = Some t ->
  mapM fragmentTime (getAllFragments (disk w) (_fragmentsPath (self w))) = Some bs ->
  dateBinarySearch t bs = Some (b, i) ->
  t <> b ->
  isRedirectTo ("/" +:+ _name (self w) +:+ "/fragments?time=" +:+ toISOString b)
    (fst (getFragments (Some s) now w)).
Proof.
  intros Hs Hbs Hloc Hne. unfold getFragments. simpl. rewrite Hs, Hbs, Hloc.
  destruct (Z.eqb_spec t b) as [Heq | _]; [contradiction|]. simpl.
  eexists. split; [reflexivity|]. split; [reflexivity|].
  unfold redirect, set_header. simpl. apply lookup_insert_eq.
Qed.

(** The handler on a boundary time: an answer with status 200 and the cache
    policy chosen by the position, or an exception; never a redirect. *)
Lemma getFragments_on_boundary (s : string) (now : Z) (w : World)
    (bs : list Z) (b : Z) (i : nat) :
  dateParse s = Some b ->
  mapM fragmentTime (getAllFragments (disk w) (_fragmentsPath (self w))) = Some bs ->
  dateBinarySearch b bs = Some (b, i) ->
  (exists e, fst (getFragments (Some s) now w) = Throw e) \/
  (exists res, fst (getFragments (Some s) now w) = Respond res /\
     status res = 200 /\
     headers res !! "Cache-Control" =
       Some (if Z.of_nat i <? Z.of_nat (length bs) - 1
             then "public, max-age=31536000, inmutable"
             else "no-cache, no-store, must-revalidate")).
Proof.
  intros Hs Hbs Hloc. unfold getFragments. simpl. rewrite Hs, Hbs, Hloc.
  rewrite Z.eqb_refl. simpl.
  unfold getFragmentsCount. rewrite (length_mapM _ _ _ Hbs).
  destruct (getTriplesFromFile _ _) as [[pf ft]|]; [|left; eexists; reflexivity].
  destruct (createMetadata _ _ _) as [metaData|]; [|left; eexists; reflexivity].
  right. destruct (_ <? _); simpl;
    (eexists; split; [reflexivity|]; split; [reflexivity|]);
    unfold set_header; simpl; apply lookup_insert_eq.
Qed.

Lemma isRedirect_on_boundary (s : string) (now : Z) (w : World)
    (bs : list Z) (b : Z) (i : nat) :
  dateParse s = Some b ->
  mapM fragmentTime (getAllFragments (disk w) (_fragmentsPath (self w))) = Some bs ->
  dateBinarySearch b bs = Some (b, i) ->
  isRedirect (fst (getFragments (Some s) now w)) = false.
Proof.
  intros Hs Hbs Hloc.
  destruct (getFragments_on_boundary s now w bs b i Hs Hbs Hloc)
    as [[e ->] | (res & -> & Hst & _)]; [reflexivity|].
  simpl. now rewrite Hst.
Qed.

(** C5. For a valid query time [t] and an ascending fragment index, the
    handler redirects (302) to the exact time of the located fragment
    whenever [t] differs from it, and does not redirect when [t] is that
    time; a request for the time it redirected to (which the [Date] parser
    reads back from its ISO form) is not redirected again.  The handler
    leaves the instance and the storage as they were. *)
Theorem canonical_redirect (s : string) (t now : Z) (w : World)
    (bs : list Z) (b : Z) (i : nat) :
  dateParse s = Some t ->
  mapM fragmentTime (getAllFragments (disk w) (_fragmentsPath (self w))) = Some bs ->
  ascendingb bs = true ->
  dateBinarySearch t bs = Some (b, i) ->
  dateParse (toISOString b) = Some b ->
  let url := "/" +:+ _name (self w) +:+ "/fragments?time=" +:+ toISOString b in
  (t <> b -> isRedirectTo url (fst (getFragments (Some s) now w))) /\
  (t = b -> isRedirect (fst (getFragments (Some s) now w)) = false) /\
  (forall now', isRedirect (fst (getFragments (Some (toISOString b)) now' w)) = false) /\
  snd (getFragments (Some s) now w) = w.
Proof.
  intros Hs Hbs Hasc Hloc Hiso url.
  assert (Hi : bs !! i = Some b) by now apply dateBinarySearch_Some in Hloc.
  pose proof (locate_boundary bs b i Hasc Hi) as Hloc'.
  split; [|split; [|split]].
  - intros Hne. now apply (getFragments_off_boundary s t now w bs b i).
  - intros ->. now apply (isRedirect_on_boundary s now w bs b i).
  - intros now'. now apply (isRedirect_on_boundary (toISOString b) now' w bs b i).
  - apply getFragments_world.
Qed.

(** Every answer of the handler that is not a redirect has status 200 and
    comes from a located fragment at some position [i] of the listing:
    when [i] is the last position the header [Cache-Control] is
    [no-cache, no-store, must-revalidate], and otherwise it is the text of
    line 162, [public, max-age=31536000, inmutable]. *)
Theorem cache_policy (time : option string) (now : Z) (w : World) (res : Response) :
  fst (getFragments time now w) = Respond res ->
  status res <> 302 ->
  let listing := getAllFragments (disk w) (_fragmentsPath (self w)) in
  exists t bs i,
    time ≫= dateParse = Some t /\
    mapM fragmentTime listing = Some bs /\
    dateBinarySearch t bs = Some (t, i) /\
    (i < length listing)%nat /\
    status res = 200 /\
    (S i = length listing ->
       headers res !! "Cache-Control" = Some "no-cache, no-store, must-revalidate") /\
    (S i <> length listing ->
       headers res !! "Cache-Control" = Some "public, max-age=31536000, inmutable").
Proof.
  intros Hres Hst listing.
  destruct time as [s|]; simpl.
  2: { unfold getFragments in Hres. simpl in Hres. injection Hres as <-. now elim Hst. }
  destruct (dateParse s) as [t|] eqn:Hs.
  2: { unfold getFragments in Hres. simpl in Hres. rewrite Hs in Hres.
       injection Hres as <-. now elim Hst. }
  destruct (mapM fragmentTime listing) as [bs|] eqn:Hbs.
  2: { unfold getFragments in Hres. simpl in Hres. rewrite Hs in Hres.
       fold listing in Hres. rewrite Hbs in Hres. discriminate. }
  destruct (dateBinarySearch t bs) as [[b i]|] eqn:Hloc.
  2: { unfold getFragments in Hres. simpl in Hres. rewrite Hs in Hres.
       fold listing in Hres. rewrite Hbs, Hloc in Hres. discriminate. }
  destruct (Z.eq_dec t b) as [<- | Hne].
  2: { destruct (getFragments_off_boundary s t now w bs b i Hs Hbs Hloc Hne)
         as (res' & Hres' & Hst' & _). congruence. }
  destruct (getFragments_on_boundary s now w bs t i Hs Hbs Hloc)
    as [[e He] | (res' & Hres' & Hst' & Hcc)]; [congruence|].
  assert (res' = res) as -> by congruence.
  assert (Hi : (i < length bs)%nat)
    by (apply dateBinarySearch_Some in Hloc; now apply lookup_lt_Some in Hloc).
  assert (Hlen : length listing = length bs) by now apply length_mapM in Hbs.
  exists t, bs, i. repeat split; try assumption; try lia.
  - intros Hlast. rewrite Hcc.
    destruct (Z.ltb_spec (Z.of_nat i) (Z.of_nat (length bs) - 1)); [lia | reflexivity].
  - intros Hnot. rewrite Hcc.
    destruct (Z.ltb_spec (Z.of_nat i) (Z.of_nat (length bs) - 1)); [reflexivity | lia].
Qed.

(** C9. When the [time] parameter is missing or is not a date, the handler
    does not fail: it answers 302 with the fragments URL whose time is the
    current time.  The answer is the same whatever the storage folder
    holds, and the instance and the storage are left as they were. *)
Theorem invalid_time_redirects_to_now (time : option string) (now : Z) (w : World) :
  (time = None \/ exists s, time = Some s /\ dateParse s = None) ->
  exists res,
    getFragments time now w = (Respond res, w) /\
    status res = 302 /\
    headers res !! "Location" =
      Some ("/" +:+ _name (self w) +:+ "/fragments?time=" +:+ toISOString now) /\
    body res = None /\
    forall files, fst (getFragments time now (with_disk (fun _ => files) w)) = Respond res.
Proof.
  intros Hbad.
  assert (Hq : time ≫= dateParse = None).
  { destruct Hbad as [-> | (s & -> & Hs)]; [reflexivity | exact Hs]. }
  unfold getFragments. rewrite Hq. simpl.
  eexists. split; [reflexivity|]. split; [reflexivity|].
  split; [apply lookup_insert_eq|]. split; reflexivity.
Qed.

End Historical.

(** The archive with the fragments [t1] and [t3], asked for [t2]: the
    handler redirects to [t1]; asked for [t1], it does not redirect. *)
Lemma canonical_redirect_witness :
  isRedirectTo "/obs/fragments?time=t1"
    (fst (@getFragments testDouble (Some "t2") 4 testArchive)) /\
  isRedirect (fst (@getFragments testDouble (Some "t1") 4 testArchive)) = false.
Proof.
  destruct (@canonical_redirect testDouble "t2" 2 4 testArchive [1; 3] 1 0%nat
              ltac:(reflexivity) ltac:(vm_compute; reflexivity) ltac:(reflexivity)
              ltac:(vm_compute; reflexivity) ltac:(reflexivity))
    as (Hoff & _ & Hagain & _).
  split.
  - apply Hoff. lia.
  - apply (Hagain 4).
Defined.

(** The archive asked for its last fragment, [t3]: status 200 and no
    caching. *)
Lemma cache_policy_witness :
  exists res,
    fst (@getFragments testDouble (Some "t3") 4 testArchive) = Respond res /\
    status res = 200 /\
    headers res !! "Cache-Control" = Some "no-cache, no-store, must-revalidate".
Proof.
  destruct (@getFragments testDouble (Some "t3") 4 testArchive) as [o w'] eqn:E.
  destruct o as [res|e]; [|vm_compute in E; discriminate].
  exists res. split; [reflexivity|].
  assert (Hst : status res <> 302).
  { vm_compute in E. injection E as <- _. vm_compute. discriminate. }
  destruct (@cache_policy testDouble (Some "t3") 4 testArchive res
              ltac:(now rewrite E) Hst) as (t & bs & i & Ht & Hbs & Hloc & _ & H200 & Hlast & _).
  split; [exact H200|]. apply Hlast.
  vm_compute in Ht. injection Ht as <-.
  vm_compute in Hbs. injection Hbs as <-.
  vm_compute in Hloc. injection Hloc as <-. reflexivity.
Defined.

(** A request without [time] and a request with a [time] that is no date:
    both are redirected to the current time, here [t4]. *)
Lemma invalid_time_redirects_to_now_witness :
  (exists res, @getFragments testDouble None 4 testArchive = (Respond res, testArchive) /\
               headers res !! "Location" = Some "/obs/fragments?time=t4") /\
  (exists res, @getFragments testDouble (Some "yesterday") 4 testArchive
                 = (Respond res, testArchive) /\
               headers res !! "Location" = Some "/obs/fragments?time=t4").
Proof.
  split.
  - destruct (@invalid_time_redirects_to_now testDouble None 4 testArchive
                ltac:(now left)) as (res & Hres & _ & Hloc & _).
    exists res. split; [exact Hres | exact Hloc].
  - destruct (@invalid_time_redirects_to_now testDouble (Some "yesterday") 4 testArchive
                ltac:(right; eexists; split; reflexivity)) as (res & Hres & _ & Hloc & _).
    exists res. split; [exact Hres | exact Hloc].
Defined.

(** ** The live reader *)

Section Live.
Context `{Externals}.

Lemma etagOf_not_empty (newest : Entry) : String.eqb (etagOf newest) EmptyString = false.
Proof. reflexivity. Qed.

(** A full answer stores its validator, and the next request without a
    matching [If-None-Match] then takes the branch of line 104, which
    fails. *)
Lemma getLatest_repeat (h h' : option string) (w w' : World) (res : Response) :
  getLatest h w = (Respond res, w') ->
  status res = 200 ->
  h' <> headers res !! "ETag" ->
  getLatest h' w' = (Throw "ReferenceError: prevResponse is not defined", w').
Proof.
  unfold getLatest.
  destruct (last (_latest (self w))) as [newest|] eqn:Hlast; [|intros [= <- <-]; discriminate].
  fold (etagOf newest).
  destruct (match h with Some _ => _ | None => _ end); [intros [= <- <-]; discriminate|].
  destruct (String.eqb (etagOf newest) (_prevEtag (self w))); [discriminate|].
  destruct (createMetadata _ _ w) as [metadata|]; [|discriminate].
  intros [= <- <-] _ Hh'. simpl. rewrite Hlast. fold (etagOf newest).
  assert (Hetag : headers
            (set_body (_staticTriples (self w) +:+ (newline +:+ _latestTrig (self w))
                       +:+ (newline +:+ metadata))
               (set_header "Content-Type" "application/trig"
                  (set_header "Last-Modified" (toUTCString (gat newest))
                     (set_header "ETag" (etagOf newest)
                        (set_header "Access-Control-Allow-Origin" "*" freshResponse)))))
            !! "ETag" = Some (etagOf newest)).
  { unfold set_body, set_header. simpl.
    rewrite lookup_insert_ne by discriminate.
    rewrite lookup_insert_ne by discriminate.
    apply lookup_insert_eq. }
  rewrite Hetag in Hh'.
  replace (match h' with
           | Some h0 => negb (String.eqb h0 EmptyString) && String.eqb h0 (etagOf newest)
           | None => false
           end) with false.
  - now rewrite String.eqb_refl.
  - destruct h' as [h0|]; [|reflexivity].
    destruct (String.eqb_spec h0 (etagOf newest)) as [-> | _]; [congruence|].
    now rewrite andb_false_r.
Qed.

End Live.

(** C6, on the code. One observation is in the window and [GET latest] is
    asked twice, with nothing ingested in between and no [If-None-Match]:
    the first answer is 200 with the ETag of [r1] and the body that the
    instance caches; the second request finds its validator equal to the
    cached one and fails on the undefined [prevResponse] instead of
    answering with the cached body. *)
Theorem second_read_of_latest_fails :
  let w1 := @onData testDouble ["r1"] (testWorld 2 100) in
  let first := @getLatest testDouble None w1 in
  let second := @getLatest testDouble None (snd first) in
  (exists res, fst first = Respond res /\
     status res = 200 /\
     headers res !! "ETag" = Some ("W/" +:+ dquote +:+ "md5-r1" +:+ dquote) /\
     body res = Some (_prevResponseBody (self (snd first)))) /\
  _prevEtag (self (snd first)) = "W/" +:+ dquote +:+ "md5-r1" +:+ dquote /\
  _latest (self (snd first)) = _latest (self w1) /\
  second = (Throw "ReferenceError: prevResponse is not defined", snd first).
Proof.
  intros w1 first second.
  assert (Hfirst : exists res w2, first = (Respond res, w2) /\ status res = 200 /\
            headers res !! "ETag" = Some ("W/" +:+ dquote +:+ "md5-r1" +:+ dquote) /\
            body res = Some (_prevResponseBody (self w2)) /\
            _prevEtag (self w2) = "W/" +:+ dquote +:+ "md5-r1" +:+ dquote /\
            _latest (self w2) = _latest (self w1)).
  { eexists _, _. split; [vm_compute; reflexivity|]. repeat split. }
  destruct Hfirst as (res & w2 & Hf & Hst & Hetag & Hbody & Hprev & Hlatest).
  split; [|split; [|split]].
  - exists res. rewrite Hf. repeat split; assumption.
  - now rewrite Hf.
  - now rewrite Hf.
  - unfold second. rewrite Hf. simpl.
    apply (@getLatest_repeat testDouble None None w1 w2 res Hf Hst).
    rewrite Hetag. discriminate.
Qed.

(** * Further properties of the class *)

(** ** Ingestion: what enters the window and what goes to storage *)

Section Ingestion.
Context `{Externals}.

Lemma init_rejected (d : string) (w : World) : entryOf d = None -> init d w = w.
Proof.
  unfold entryOf, init.
  destruct (getGeneratedAtTimeValue d) as [g|]; [|reflexivity].
  destruct (getTriplesFromString d) as [[pf ts]|]; [discriminate | reflexivity].
Qed.

Lemma init_accepted (d : string) (e : Entry) (w : World) :
  entryOf d = Some e ->
  data e = d /\
  init d w = init_refresh (init_evict (init_publish d (init_push e w))).
Proof.
  unfold entryOf, init.
  destruct (getGeneratedAtTimeValue d) as [g|]; [|discriminate].
  destruct (getTriplesFromString d) as [[pf ts]|]; [|discriminate].
  intros [= <-]. split; reflexivity.
Qed.

Lemma writerState_refresh (w : World) : writerState (init_refresh w) = writerState w.
Proof. reflexivity. Qed.

Lemma writerState_publish (d : string) (w : World) :
  writerState (init_publish d w) = writerState w.
Proof. unfold init_publish. now destruct (_websocket (self w)). Qed.

Lemma writerState_push (e : Entry) (w : World) :
  writerState (init_push e w) = writerState w.
Proof. reflexivity. Qed.

(** [storeData] reads and writes the writer's part of the world only. *)
Lemma storeData_writerState (p : string) (g : Z) (w1 w2 : World) :
  writerState w1 = writerState w2 ->
  writerState (storeData p g w1) = writerState (storeData p g w2).
Proof.
  unfold writerState. intros [= Hp Hc Hb Hf Hd].
  unfold storeData, rotates. rewrite Hb, Hc.
  destruct (_ || _); simpl.
  - now rewrite Hp, Hc, Hd.
  - rewrite Hf. destruct (lastFragment (self w2)) eqn:E; simpl;
      now rewrite ?Hp, ?Hc, ?Hb, ?Hf, ?Hd, ?E.
Qed.

Lemma storeAll_writerState (ps : list (string * Z)) (w1 w2 : World) :
  writerState w1 = writerState w2 ->
  writerState (storeAll ps w1) = writerState (storeAll ps w2).
Proof.
  revert w1 w2. induction ps as [|p ps IH]; intros w1 w2 Hw; [exact Hw|].
  simpl. apply IH. now apply storeData_writerState.
Qed.

(** [init] on an accepted observation while the window has room: the entry
    joins the window and the writer is not called. *)
Lemma init_with_room (d : string) (e : Entry) (w : World) :
  entryOf d = Some e ->
  (0 < room w)%nat ->
  _latest (self (init d w)) = (_latest (self w) ++ [e])%list /\
  writerState (init d w) = writerState w /\
  room (init d w) = pred (room w).
Proof.
  intros He Hroom. destruct (init_accepted d e w He) as [_ ->].
  assert (Hlatest : _latest (self (init_refresh (init_evict (init_publish d (init_push e w)))))
                    = (_latest (self w) ++ [e])%list).
  { change (_latest (self (init_refresh ?x))) with (_latest (self x)).
    rewrite init_evict_latest. unfold room in Hroom.
    case_gtb; [rewrite length_app in *; simpl in *; lia | reflexivity]. }
  split; [exact Hlatest|]. split.
  - rewrite writerState_refresh, init_evict_after_push.
    unfold room in Hroom.
    case_gtb; [rewrite length_app in *; simpl in *; lia|].
    now rewrite writerState_publish, writerState_push.
  - unfold room. rewrite Hlatest.
    change (_latestWindowsize (self (init_refresh ?x))) with (_latestWindowsize (self x)).
    rewrite init_evict_latestWindowsize, length_app. simpl. unfold room in Hroom. lia.
Qed.

(** [init] on an accepted observation while the window is full: the window
    stays and the observation itself goes to the writer. *)
Lemma init_without_room (d : string) (e : Entry) (w : World) :
  entryOf d = Some e ->
  room w = 0%nat ->
  _latest (self (init d w)) = _latest (self w) /\
  writerState (init d w) = writerState (storeData (data e) (gat e) w) /\
  room (init d w) = 0%nat.
Proof.
  intros He Hroom. destruct (init_accepted d e w He) as [_ ->].
  assert (Hlatest : _latest (self (init_refresh (init_evict (init_publish d (init_push e w)))))
                    = _latest (self w)).
  { change (_latest (self (init_refresh ?x))) with (_latest (self x)).
    rewrite init_evict_latest. unfold room in Hroom.
    case_gtb; [reflexivity | rewrite length_app in *; simpl in *; lia]. }
  split; [exact Hlatest|]. split.
  - rewrite writerState_refresh, init_evict_after_push.
    unfold room in Hroom.
    case_gtb; [|rewrite length_app in *; simpl in *; lia].
    rewrite init_push_publish_undo.
    apply storeData_writerState, writerState_publish.
  - unfold room. rewrite Hlatest.
    change (_latestWindowsize (self (init_refresh ?x))) with (_latestWindowsize (self x)).
    rewrite init_evict_latestWindowsize. exact Hroom.
Qed.

(** The window and the writer after a sequence of observations, from any
    state: the first accepted observations fill the room that is left, the
    later ones are stored one by one. *)
Lemma onData_split (ds : list string) (w : World) :
  _latest (self (onData ds w)) = (_latest (self w) ++ take (room w) (entries ds))%list /\
  writerState (onData ds w) =
    writerState (storeAll (map stored (drop (room w) (entries ds))) w).
Proof.
  revert w. induction ds as [|d ds IH]; intros w.
  - unfold entries. simpl. rewrite take_nil, drop_nil, app_nil_r. now split.
  - rewrite onData_cons. unfold entries. simpl. fold (entries ds).
    destruct (entryOf d) as [e|] eqn:He.
    + destruct (room w) as [|k] eqn:Hroom.
      * destruct (init_without_room d e w He Hroom) as (Hl & Hws & Hr).
        destruct (IH (init d w)) as [IHl IHw]. rewrite Hr in IHl, IHw.
        rewrite take_0, drop_0 in *. simpl.
        split; [now rewrite IHl, Hl|].
        rewrite IHw. now apply storeAll_writerState.
      * destruct (init_with_room d e w He ltac:(lia)) as (Hl & Hws & Hr).
        destruct (IH (init d w)) as [IHl IHw]. rewrite Hr, Hroom in IHl, IHw.
        simpl in *.
        split; [now rewrite IHl, Hl, <- app_assoc|].
        rewrite IHw. now apply storeAll_writerState.
    + rewrite (init_rejected d w He). apply IH.
Qed.

(** X1. From any state, a sequence of observations extends the window by
    the first accepted ones, as many as there is room for, in arrival
    order; on a new instance the window is therefore the first [W]
    accepted observations, whatever arrives later. *)
Theorem window_holds_first_arrivals (w : World) (config : Config) (serverUrl : string)
    (files : gmap string string) (ds : list string) :
  _latest (self (onData ds w)) = (_latest (self w) ++ take (room w) (entries ds))%list /\
  _latest (self (onData ds (mkWorld (constructor config serverUrl) files []))) =
    take (Z.to_nat (cfg_latestWindowsize config)) (entries ds).
Proof.
  split; [apply onData_split|].
  destruct (onData_split ds (mkWorld (constructor config serverUrl) files [])) as [Hl _].
  rewrite Hl. simpl. unfold room. simpl. now rewrite Z.sub_0_r.
Qed.

End Ingestion.

(** Five observations that arrive one at a time, of which [r5] is not
    accepted, and [W = 2]: the window keeps [r1] and [r2]; [r3] and [r4]
    are stored. *)
Example window_and_storage_run :
  let w := @onData testDouble ["r1"; "r5"; "r2"; "r3"; "r4"] (testWorld 2 100) in
  map data (_latest (self w)) = ["r1"; "r2"] /\
  map_to_list (disk w) = [("frags/t3.trig", "r3r4")] /\
  _byteCounter (self w) = 4.
Proof. vm_compute. repeat split; reflexivity. Qed.


(** ** Strings *)

Lemma append_nil_r (s : string) : s +:+ EmptyString = s.
Proof. induction s as [|c s IH]; [reflexivity | exact (f_equal (String c) IH)]. Qed.

Lemma append_assoc (s1 s2 s3 : string) : (s1 +:+ s2) +:+ s3 = s1 +:+ (s2 +:+ s3).
Proof. induction s1 as [|c s1 IH]; [reflexivity | exact (f_equal (String c) IH)]. Qed.

Lemma length_append (s1 s2 : string) :
  String.length (s1 +:+ s2) = (String.length s1 + String.length s2)%nat.
Proof. induction s1 as [|c s1 IH]; [reflexivity | exact (f_equal S IH)]. Qed.

Lemma concat_cons (h : string) (t : list string) :
  String.concat EmptyString (h :: t) = h +:+ String.concat EmptyString t.
Proof.
  destruct t as [|h' t]; [|reflexivity].
  cbn [String.concat]. symmetry. apply append_nil_r.
Qed.

(** ** The text of the window and the websocket channel *)

Section Views.
Context `{Externals}.

Lemma windowTrig_cons (e : Entry) (l : list Entry) :
  windowTrig (e :: l) = (newline +:+ triplesTrig e) +:+ windowTrig l.
Proof. unfold windowTrig. rewrite map_cons. apply concat_cons. Qed.

(** The loop of lines 80-83 builds the text of the window. *)
Lemma refresh_loop (l : list Entry) (acc : string) :
  fold_left (fun acc e => acc +:+ (newline +:+ triplesTrig e)) l acc = acc +:+ windowTrig l.
Proof.
  revert acc. induction l as [|e l IH]; intros acc.
  - simpl. unfold windowTrig. simpl. now rewrite append_nil_r.
  - simpl. rewrite IH, windowTrig_cons. apply append_assoc.
Qed.

Lemma init_refresh_trig (w : World) :
  _latestTrig (self (init_refresh w)) = windowTrig (_latest (self (init_refresh w))).
Proof. unfold init_refresh. simpl. now rewrite refresh_loop. Qed.

(** [storeData] touches the byte counter, the open fragment and the files,
    and nothing else. *)
Lemma storeData_frame (p : string) (g : Z) (w : World) :
  self (storeData p g w) =
    set_byteCounter (_byteCounter (self (storeData p g w)))
      (set_lastFragment (lastFragment (self (storeData p g w))) (self w)) /\
  pushed (storeData p g w) = pushed w.
Proof.
  destruct w as [r dk ps]. destruct r.
  unfold storeData, rotates. simpl.
  destruct (_ || _); simpl; [now split|].
  destruct lastFragment0; now split.
Qed.

(** What [init] adds to the websocket channel. *)
Lemma init_pushed (d : string) (w : World) :
  pushed (init d w) =
    (pushed w ++
     if _websocket (self w)
     then map (fun e => (_name (self w), _staticTriples (self w) +:+ data e))
            (option_list (entryOf d))
     else [])%list /\
  _websocket (self (init d w)) = _websocket (self w) /\
  _name (self (init d w)) = _name (self w) /\
  _staticTriples (self (init d w)) = _staticTriples (self w).
Proof.
  destruct (entryOf d) as [e|] eqn:He.
  2: { rewrite (init_rejected d w He). simpl.
       destruct (_websocket (self w)); now rewrite app_nil_r. }
  destruct (init_accepted d e w He) as [Hd ->].
  rewrite init_evict_after_push. unfold init_refresh.
  destruct (_ >? _).
  - rewrite init_push_publish_undo. simpl.
    destruct (storeData_frame (data e) (gat e) (init_publish d w)) as [-> ->].
    rewrite init_publish_self. simpl. unfold init_publish.
    destruct (_websocket (self w)); simpl; rewrite ?app_nil_r, ?Hd; now repeat split.
  - simpl. rewrite init_publish_self. simpl. unfold init_publish, init_push. simpl.
    destruct (_websocket (self w)); simpl; rewrite ?app_nil_r, ?Hd; now repeat split.
Qed.

(** X3. On a new instance, after any sequence of observations, the cached
    TriG text of the window is the text of the entries that the window
    holds, each on a line of its own and in window order. *)
Theorem latestTrig_follows_window (config : Config) (serverUrl : string)
    (files : gmap string string) (ds : list string) :
  let w := onData ds (mkWorld (constructor config serverUrl) files []) in
  _latestTrig (self w) = windowTrig (_latest (self w)).
Proof.
  intros w. unfold w. clear w.
  induction ds as [|d ds IH] using rev_ind; [reflexivity|].
  rewrite onData_snoc.
  set (w := onData ds (mkWorld (constructor config serverUrl) files [])) in *.
  destruct (entryOf d) as [e|] eqn:He.
  - destruct (init_accepted d e w He) as [_ ->]. apply init_refresh_trig.
  - now rewrite (init_rejected d w He).
Qed.

(** X4. From any state, each accepted observation is pushed to the
    websocket subscribers exactly once and in arrival order, as the static
    triples followed by the observation, whether or not it stays in the
    window; without a websocket nothing is pushed.  On a new instance
    whose static triples were set up from a file, the pushed payloads start
    with the TriG text of that file, or with nothing when the file could
    not be read. *)
Theorem subscribers_get_every_observation (w : World) (ds : list string)
    (config : Config) (serverUrl path : string) (files : gmap string string) :
  pushed (onData ds w) =
    (pushed w ++
     if _websocket (self w)
     then map (fun e => (_name (self w), _staticTriples (self w) +:+ data e)) (entries ds)
     else [])%list /\
  pushed (onData ds (setupStaticTriples path (mkWorld (constructor config serverUrl) files []))) =
    (if cfg_websocket config
     then map (fun e =>
                 (cfg_name config,
                  match getTriplesFromFile files path with
                  | Some (prefixes, ts) => formatTriples "application/trig" ts (Some prefixes)
                  | None => EmptyString
                  end +:+ data e)) (entries ds)
     else []).
Proof.
  assert (Hgen : forall w, pushed (onData ds w) =
    (pushed w ++
     if _websocket (self w)
     then map (fun e => (_name (self w), _staticTriples (self w) +:+ data e)) (entries ds)
     else [])%list).
  { clear w. induction ds as [|d ds IH]; intros w.
    - unfold entries. simpl. destruct (_websocket (self w)); now rewrite app_nil_r.
    - rewrite onData_cons, IH.
      destruct (init_pushed d w) as (-> & -> & -> & ->).
      unfold entries. simpl. fold (entries ds).
      destruct (_websocket (self w)); [|now rewrite !app_nil_r].
      rewrite <- app_assoc. f_equal.
      destruct (entryOf d); reflexivity. }
  split; [apply Hgen|].
  rewrite Hgen. unfold setupStaticTriples. simpl.
  destruct (getTriplesFromFile files path) as [[prefixes ts]|]; reflexivity.
Qed.

End Views.

(** ** The files of the storage folder *)

Section Storage.
Context `{Externals}.

Lemma appendToFile_lookup (f p : string) (d : gmap string string) :
  appendToFile f p d !! f = Some (default EmptyString (d !! f) +:+ p).
Proof. unfold appendToFile. apply lookup_insert_eq. Qed.

Lemma appendToFile_other (f p path : string) (d : gmap string string) :
  f <> path -> appendToFile f p d !! path = d !! path.
Proof. intros Hne. unfold appendToFile. now apply lookup_insert_ne. Qed.

(** The files after [storeData]: the open fragment has the payload at its
    end, every other file is as it was. *)
Lemma storeData_disk (p : string) (g : Z) (w : World) :
  (forall f, lastFragment (self (storeData p g w)) = Some f ->
     disk (storeData p g w) !! f = Some (default EmptyString (disk w !! f) +:+ p)) /\
  (forall path, lastFragment (self (storeData p g w)) <> Some path ->
     disk (storeData p g w) !! path = disk w !! path).
Proof.
  destruct (rotates w) eqn:Hr.
  - destruct (storeData_rotate p g w Hr) as (Hf & _ & Hd).
    rewrite Hf, Hd. split.
    + intros f [= <-]. apply appendToFile_lookup.
    + intros path Hne. apply appendToFile_other. congruence.
  - destruct (lastFragment (self w)) as [f0|] eqn:Hf0.
    + destruct (storeData_append p g w f0 Hr Hf0) as (Hf & _ & Hd).
      rewrite Hf, Hd. split.
      * intros f [= <-]. apply appendToFile_lookup.
      * intros path Hne. apply appendToFile_other. congruence.
    + unfold storeData. rewrite Hr. simpl. rewrite Hf0.
      split; [intros f Hf; congruence | reflexivity].
Qed.

Lemma storeData_keeps_content (p : string) (g : Z) (w : World) (path c : string) :
  disk w !! path = Some c ->
  exists c', disk (storeData p g w) !! path = Some (c +:+ c').
Proof.
  intros Hc. destruct (storeData_disk p g w) as [Hopen Hother].
  destruct (decide (lastFragment (self (storeData p g w)) = Some path)) as [Hf | Hf].
  - exists p. rewrite (Hopen path Hf), Hc. reflexivity.
  - exists EmptyString. rewrite (Hother path Hf), Hc, append_nil_r. reflexivity.
Qed.

Lemma init_keeps_content (d : string) (w : World) (path c : string) :
  disk w !! path = Some c ->
  exists c', disk (init d w) !! path = Some (c +:+ c').
Proof.
  intros Hc.
  destruct (entryOf d) as [e|] eqn:He.
  2: { rewrite (init_rejected d w He). exists EmptyString. now rewrite append_nil_r. }
  destruct (room w) as [|k] eqn:Hroom.
  - destruct (init_without_room d e w He Hroom) as (_ & Hws & _).
    unfold writerState in Hws. injection Hws as _ _ _ _ ->.
    now apply storeData_keeps_content.
  - destruct (init_with_room d e w He ltac:(lia)) as (_ & Hws & _).
    unfold writerState in Hws. injection Hws as _ _ _ _ ->.
    exists EmptyString. now rewrite append_nil_r.
Qed.

(** X6. The storage folder is append-only under ingestion: whatever a
    file holds stays at its beginning after any sequence of observations;
    no file is removed, truncated or rewritten. *)
Theorem storage_is_append_only (ds : list string) (w : World) (path c : string) :
  disk w !! path = Some c ->
  exists c', disk (onData ds w) !! path = Some (c +:+ c').
Proof.
  revert w c. induction ds as [|d ds IH]; intros w c Hc.
  - exists EmptyString. now rewrite append_nil_r.
  - rewrite onData_cons.
    destruct (init_keeps_content d w path c Hc) as (c1 & Hc1).
    destruct (IH (init d w) (c +:+ c1) Hc1) as (c2 & Hc2).
    exists (c1 +:+ c2). now rewrite Hc2, append_assoc.
Qed.


Lemma totalBytes_cons (p : string * Z) (ps : list (string * Z)) :
  totalBytes (p :: ps) = Z.of_nat (String.length (fst p)) + totalBytes ps.
Proof. reflexivity. Qed.

Lemma totalBytes_nonneg (ps : list (string * Z)) : 0 <= totalBytes ps.
Proof. induction ps as [|p ps IH]; [simpl; lia | rewrite totalBytes_cons; lia]. Qed.

Lemma storeData_cap (p : string) (g : Z) (w : World) :
  _fragmentMaxSize (self (storeData p g w)) = _fragmentMaxSize (self w).
Proof. now rewrite (proj1 (storeData_frame p g w)). Qed.

(** A run of the writer that stays in the open fragment [f]. *)
Lemma storeAll_same_fragment (rest : list (string * Z)) :
  forall (u : World) (f c : string),
    lastFragment (self u) = Some f ->
    disk u !! f = Some c ->
    0 < _byteCounter (self u) ->
    (rest <> [] ->
       _byteCounter (self u) + totalBytes (removelast rest) <= _fragmentMaxSize (self u)) ->
    lastFragment (self (storeAll rest u)) = Some f /\
    _byteCounter (self (storeAll rest u)) = _byteCounter (self u) + totalBytes rest /\
    disk (storeAll rest u) !! f = Some (c +:+ payloads rest) /\
    forall path, path <> f -> disk (storeAll rest u) !! path = disk u !! path.
Proof.
  induction rest as [|q rest IH]; intros u f c Hf Hc Hpos Hcap.
  - simpl. unfold payloads. simpl. rewrite append_nil_r.
    repeat split; [exact Hf | lia | exact Hc].
  - assert (Hle : _byteCounter (self u) <= _fragmentMaxSize (self u)).
    { specialize (Hcap ltac:(discriminate)).
      pose proof (totalBytes_nonneg (removelast (q :: rest))). lia. }
    assert (Hr : rotates u = false).
    { destruct (rotates u) eqn:E; [|reflexivity].
      apply rotates_iff in E. lia. }
    destruct (storeData_append (fst q) (snd q) u f Hr Hf) as (Hf1 & Hb1 & Hd1).
    change (storeAll (q :: rest) u) with (storeAll rest (storeData (fst q) (snd q) u)).
    destruct (IH (storeData (fst q) (snd q) u) f (c +:+ fst q)) as (Hf2 & Hb2 & Hd2 & Ho2).
    + exact Hf1.
    + rewrite Hd1, appendToFile_lookup, Hc. reflexivity.
    + rewrite Hb1. lia.
    + intros Hne. rewrite Hb1, storeData_cap.
      specialize (Hcap ltac:(discriminate)).
      destruct rest as [|r rest]; [congruence|].
      change (removelast (q :: r :: rest)) with (q :: removelast (r :: rest)) in Hcap.
      rewrite totalBytes_cons in Hcap. lia.
    + split; [exact Hf2|]. split; [rewrite Hb2, Hb1, totalBytes_cons; lia|].
      split.
      * rewrite Hd2. unfold payloads. rewrite map_cons, concat_cons.
        now rewrite append_assoc.
      * intros path Hne. rewrite (Ho2 path Hne), Hd1.
        apply appendToFile_other. congruence.
Qed.

(** When a new fragment is due, a run of calls each of which completes
    before the next one starts, the first with a payload that is not
    empty, lands in one fragment as long as the bytes written before each
    payload stay within the cap. *)
Lemma storeAll_one_fragment (w : World) (p1 : string) (t1 : Z)
    (rest : list (string * Z)) :
  rotates w = true ->
  p1 <> EmptyString ->
  totalBytes (removelast ((p1, t1) :: rest)) <= _fragmentMaxSize (self w) ->
  let ps := (p1, t1) :: rest in
  let f := freshFragment t1 w in
  let w' := storeAll ps w in
  lastFragment (self w') = Some f /\
  _byteCounter (self w') = totalBytes ps /\
  disk w' !! f = Some (default EmptyString (disk w !! f) +:+ payloads ps) /\
  forall path, path <> f -> disk w' !! path = disk w !! path.
Proof.
  intros Hr Hp1 Hcap ps f w'.
  destruct (storeData_rotate p1 t1 w Hr) as (Hf1 & Hb1 & Hd1).
  assert (Hlen : 0 < Z.of_nat (String.length p1))
    by (destruct p1; [congruence | simpl; lia]).
  destruct (storeAll_same_fragment rest (storeData p1 t1 w) f
              (default EmptyString (disk w !! f) +:+ p1)) as (Hf2 & Hb2 & Hd2 & Ho2).
  - exact Hf1.
  - rewrite Hd1. apply appendToFile_lookup.
  - rewrite Hb1. exact Hlen.
  - intros Hne. rewrite Hb1, storeData_cap.
    destruct rest as [|r rest]; [congruence|].
    change (removelast ((p1, t1) :: r :: rest)) with ((p1, t1) :: removelast (r :: rest)) in Hcap.
    rewrite totalBytes_cons in Hcap. simpl fst in Hcap. lia.
  - unfold w', ps.
    change (storeAll ((p1, t1) :: rest) w) with (storeAll rest (storeData p1 t1 w)).
    split; [exact Hf2|].
    split; [rewrite Hb2, Hb1, totalBytes_cons; simpl fst; lia|].
    split.
    + rewrite Hd2. unfold payloads. rewrite map_cons, concat_cons. simpl fst.
      now rewrite append_assoc.
    + intros path Hne. rewrite (Ho2 path Hne), Hd1.
      apply appendToFile_other. intros Heq. apply Hne. now rewrite <- Heq.
Qed.

End Storage.

(** The archive keeps what it holds when [r1 .. r4] arrive. *)
Lemma storage_is_append_only_witness :
  disk testArchive !! "frags/t1.trig" = Some "r1" /\
  exists c', disk (@onData testDouble ["r1"; "r2"; "r3"; "r4"] testArchive) !! "frags/t1.trig"
             = Some ("r1" +:+ c').
Proof.
  split; [reflexivity|].
  apply (@storage_is_append_only testDouble ["r1"; "r2"; "r3"; "r4"] testArchive
           "frags/t1.trig" "r1"). reflexivity.
Defined.

(** ** Fragment names *)

Lemma append_cons (c : ascii) (s t : string) : String c s +:+ t = String c (s +:+ t).
Proof. reflexivity. Qed.

Lemma append_nil (t : string) : EmptyString +:+ t = t.
Proof. reflexivity. Qed.

Lemma substring_0_0 (s : string) : String.substring 0 0 s = EmptyString.
Proof. now destruct s. Qed.

Lemma substring_append (s t : string) :
  String.substring 0 (String.length s) (s +:+ t) = s.
Proof.
  induction s as [|c s IH].
  - destruct t; reflexivity.
  - rewrite append_cons. cbn [String.length String.substring]. now f_equal.
Qed.

(** An occurrence of [.trig] that starts inside [s] and runs into an
    appended [.trig] would need a second dot: there is none. *)
Lemma prefix_trig_boundary (c : ascii) (s : string) :
  String.prefix ".trig" (String c (s +:+ ".trig")) = true ->
  String.prefix ".trig" (String c s) = true.
Proof.
  rewrite !String.prefix_correct.
  change (String.length ".trig") with 5%nat.
  destruct s as [|c1 [|c2 [|c3 [|c4 s]]]];
    rewrite ?append_cons, ?append_nil; cbn [String.substring]; intros Heq.
  all: try congruence.
  rewrite substring_0_0 in *. exact Heq.
Qed.

Lemma index_trig_end (s : string) :
  String.index 0 ".trig" s = None ->
  String.index 0 ".trig" (s +:+ ".trig") = Some (String.length s).
Proof.
  induction s as [|c s IH]; intros Hnone.
  - reflexivity.
  - rewrite append_cons. cbn [String.index] in *.
    destruct (String.prefix ".trig" (String c s)) eqn:Hp; [discriminate|].
    destruct (String.index 0 ".trig" s) as [n|] eqn:Hi; [discriminate|].
    rewrite (IH eq_refl).
    destruct (String.prefix ".trig" (String c (s +:+ ".trig"))) eqn:Hp'.
    + apply prefix_trig_boundary in Hp'. congruence.
    + reflexivity.
Qed.

Section Names.
Context `{Externals}.

(** X9. The name under which [storeData] files a fragment reads back as
    its time: for a time whose ISO form does not contain [.trig] and parses
    back to it, the part of [<ISO>.trig] before [.trig] is the ISO form,
    and line 138 recovers the time.  A name without [.trig] reads as the
    empty string. *)
Theorem fragment_name_round_trip (t : Z) (f : string) :
  indexOf (toISOString t) ".trig" = -1 ->
  dateParse (toISOString t) = Some t ->
  substring0 (toISOString t +:+ ".trig") (indexOf (toISOString t +:+ ".trig") ".trig")
    = toISOString t /\
  fragmentTime (toISOString t +:+ ".trig") = Some t /\
  (indexOf f ".trig" = -1 -> substring0 f (indexOf f ".trig") = EmptyString).
Proof.
  intros Hfree Hparse.
  assert (Hnone : String.index 0 ".trig" (toISOString t) = None).
  { unfold indexOf in Hfree.
    destruct (String.index 0 ".trig" (toISOString t)); [lia | reflexivity]. }
  assert (Hstem : substring0 (toISOString t +:+ ".trig")
                    (indexOf (toISOString t +:+ ".trig") ".trig") = toISOString t).
  { unfold substring0, indexOf. rewrite (index_trig_end _ Hnone), Nat2Z.id.
    apply substring_append. }
  split; [exact Hstem|]. split.
  - unfold fragmentTime. now rewrite Hstem.
  - intros ->. unfold substring0. simpl. apply substring_0_0.
Qed.

End Names.

(** The fragment of time 3 of the test double, [t3.trig]. *)
Lemma fragment_name_round_trip_witness :
  @fragmentTime testDouble "t3.trig" = Some 3.
Proof.
  exact (proj1 (proj2 (@fragment_name_round_trip testDouble 3 "t3"
                         ltac:(reflexivity) ltac:(reflexivity)))).
Defined.

(** ** More on the metadata *)

Section MoreMetadata.
Context `{Externals}.

(** The quads of [createMetadata] before the [hydra:previous] link. *)
Lemma createMetadataQuads_cases (subject : string) (index : nat) (w : World) :
  exists base,
    length base = (if String.eqb (_license (self w)) EmptyString then 8 else 9)%nat /\
    Forall (fun q => q_graph q = namedNode "#Metadata") base /\
    licenseLinks base =
      (if String.eqb (_license (self w)) EmptyString then []
       else [Quad (namedNode subject) (namedNode "http://creativecommons.org/ns#license")
               (namedNode (_license (self w))) (namedNode "#Metadata")]) /\
    createMetadataQuads subject index w =
      if (0 <? index)%nat then
        match getAllFragments (disk w) (_fragmentsPath (self w)) !! (index - 1)%nat with
        | None => None
        | Some f =>
            Some (push base
                    (Quad (namedNode subject) (namedNode hydra_previous)
                       (namedNode (_serverUrl (self w) +:+ _name (self w)
                                   +:+ "/fragments?time=" +:+ substring0 f (indexOf f ".trig")))
                       (namedNode "#Metadata")))
        end
      else Some base.
Proof.
  unfold createMetadataQuads.
  destruct (String.eqb (_license (self w)) EmptyString); simpl;
    (eexists; split; [|split; [|split; [|reflexivity]]]);
    [reflexivity | repeat constructor | reflexivity
    |reflexivity | repeat constructor | reflexivity].
Qed.

(** X10. [createMetadata] fails exactly when the index is greater than the
    number of fragments in the storage folder, that is when it is positive
    and [fragments[index - 1]] does not exist; for every index from 0 to
    the number of fragments it returns a graph. *)
Theorem createMetadata_fails_beyond_the_listing (subject : string) (index : nat) (w : World) :
  let n := length (getAllFragments (disk w) (_fragmentsPath (self w))) in
  (createMetadataQuads subject index w = None <-> (n < index)%nat) /\
  (createMetadata subject index w = None <-> (n < index)%nat).
Proof.
  intros n.
  assert (Hq : createMetadataQuads subject index w = None <-> (n < index)%nat).
  { destruct (createMetadataQuads_cases subject index w) as (base & _ & _ & _ & ->).
    destruct (Nat.ltb_spec 0 index) as [Hpos | Hzero].
    - destruct (getAllFragments (disk w) (_fragmentsPath (self w)) !! (index - 1)%nat)
        as [f|] eqn:Hf.
      + apply lookup_lt_Some in Hf. fold n in Hf. split; [discriminate | lia].
      + apply lookup_ge_None in Hf. fold n in Hf. split; [lia | reflexivity].
    - split; [discriminate | lia]. }
  split; [exact Hq|].
  unfold createMetadata. rewrite <- Hq.
  destruct (createMetadataQuads subject index w); simpl; split; congruence.
Qed.

(** X11. Every quad of the metadata is in the graph [#Metadata]; the
    graph holds a license link exactly when the configured license is not
    the empty string, and then one link, from the subject to the license;
    it has eight quads for the search template, plus one for the license
    and one for the previous fragment when these are present. *)
Theorem metadata_graph_and_license (subject : string) (index : nat) (w : World)
    (quads : list quad) :
  createMetadataQuads subject index w = Some quads ->
  Forall (fun q => q_graph q = namedNode "#Metadata") quads /\
  licenseLinks quads =
    (if String.eqb (_license (self w)) EmptyString then []
     else [Quad (namedNode subject) (namedNode "http://creativecommons.org/ns#license")
             (namedNode (_license (self w))) (namedNode "#Metadata")]) /\
  length quads =
    (8 + (if String.eqb (_license (self w)) EmptyString then 0 else 1)
       + (if (0 <? index)%nat then 1 else 0))%nat.
Proof.
  destruct (createMetadataQuads_cases subject index w) as (base & Hlen & Hgraph & Hlic & ->).
  destruct (0 <? index)%nat.
  - destruct (getAllFragments (disk w) (_fragmentsPath (self w)) !! (index - 1)%nat)
      as [f|]; [|discriminate].
    intros [= <-]. unfold push. split; [|split].
    + apply Forall_app. split; [exact Hgraph | now repeat constructor].
    + unfold licenseLinks in *. rewrite List.filter_app, Hlic. simpl. apply app_nil_r.
    + rewrite length_app, Hlen. simpl.
      destruct (String.eqb (_license (self w)) EmptyString); reflexivity.
  - intros [= <-]. split; [exact Hgraph|]. split; [exact Hlic|].
    rewrite Hlen. destruct (String.eqb (_license (self w)) EmptyString); reflexivity.
Qed.

End MoreMetadata.

(** The metadata of the second fragment of the archive: no license is
    configured, so eight quads and the previous link. *)
Lemma metadata_graph_and_license_witness :
  exists quads,
    @createMetadataQuads testDouble "http://localhost/obs/fragments?time=t3" 1 testArchive
      = Some quads /\
    length quads = 9%nat /\ licenseLinks quads = [].
Proof.
  destruct (@createMetadataQuads testDouble "http://localhost/obs/fragments?time=t3" 1
              testArchive) as [quads|] eqn:E; [|vm_compute in E; discriminate].
  exists quads. split; [reflexivity|].
  destruct (@metadata_graph_and_license testDouble _ 1 testArchive quads E) as (_ & Hlic & Hlen).
  split; [exact Hlen | exact Hlic].
Defined.

(** ** More on the two handlers *)

(** Looks a header up in a response built by a chain of [set_header]. *)
Ltac header_lookup :=
  unfold redirect, set_body, set_status, set_header; simpl;
  repeat (rewrite lookup_insert_ne by discriminate);
  apply lookup_insert_eq.

Section Handlers.
Context `{Externals}.

Lemma last_None_nil {A : Type} (l : list A) : last l = None <-> l = [].
Proof.
  split; [|now intros ->].
  destruct l as [|x l] using rev_ind; [reflexivity|].
  rewrite last_snoc. discriminate.
Qed.

(** The test of line 102, [ifNoneMatchHeader && ifNoneMatchHeader === etag]. *)
Lemma if_none_match (h : option string) (newest : Entry) :
  match h with
  | Some h0 => negb (String.eqb h0 EmptyString) && String.eqb h0 (etagOf newest)
  | None => false
  end = bool_decide (h = Some (etagOf newest)).
Proof.
  destruct h as [h0|]; [|reflexivity].
  destruct (String.eqb_spec h0 (etagOf newest)) as [-> | Hne].
  - rewrite etagOf_not_empty. simpl. symmetry. now apply bool_decide_eq_true.
  - rewrite andb_false_r. symmetry. apply bool_decide_eq_false. congruence.
Qed.

(** The metadata of [GET latest] always exists: its index is the number of
    fragments. *)
Lemma latest_metadata (subject : string) (w : World) :
  exists metadata,
    createMetadata subject (length (getAllFragments (disk w) (_fragmentsPath (self w)))) w
      = Some metadata.
Proof.
  unfold createMetadata.
  destruct (createMetadataQuads_cases subject
              (length (getAllFragments (disk w) (_fragmentsPath (self w)))) w)
    as (base & _ & _ & _ & ->).
  destruct (Nat.ltb_spec 0 (length (getAllFragments (disk w) (_fragmentsPath (self w)))))
    as [Hpos | Hzero]; [|eexists; reflexivity].
  destruct (getAllFragments (disk w) (_fragmentsPath (self w))
              !! (length (getAllFragments (disk w) (_fragmentsPath (self w))) - 1)%nat)
    as [f|] eqn:Hf; [eexists; reflexivity|].
  apply lookup_ge_None in Hf. lia.
Qed.

(** X12. [GET latest] has four outcomes and no other: 404 with the text
    [No data found] exactly when the window is empty; otherwise 304
    without a body when [If-None-Match] is the validator of the newest
    entry; otherwise the failure on [prevResponse] when that validator is
    the cached one; otherwise 200 with the [ETag] and [Last-Modified] of
    the newest entry and a body that is cached with the validator.  The
    metadata never makes it fail. *)
Theorem getLatest_outcomes (h : option string) (w : World) :
  let o := fst (getLatest h w) in
  let w' := snd (getLatest h w) in
  (_latest (self w) = [] /\
   exists res, o = Respond res /\ status res = 404 /\ body res = Some "No data found") \/
  (exists newest, last (_latest (self w)) = Some newest /\
     ((h = Some (etagOf newest) /\
       exists res, o = Respond res /\ status res = 304 /\ body res = None) \/
      (h <> Some (etagOf newest) /\ etagOf newest = _prevEtag (self w) /\
       o = Throw "ReferenceError: prevResponse is not defined") \/
      (h <> Some (etagOf newest) /\ etagOf newest <> _prevEtag (self w) /\
       exists res, o = Respond res /\ status res = 200 /\
         headers res !! "ETag" = Some (etagOf newest) /\
         headers res !! "Last-Modified" = Some (toUTCString (gat newest)) /\
         headers res !! "Content-Type" = Some "application/trig" /\
         body res = Some (_prevResponseBody (self w')) /\
         _prevEtag (self w') = etagOf newest))).
Proof.
  intros o w'. unfold o, w', getLatest.
  destruct (last (_latest (self w))) as [newest|] eqn:Hlast.
  2: { left. split; [now apply last_None_nil|]. eexists. now repeat split. }
  right. exists newest. split; [reflexivity|].
  rewrite if_none_match.
  destruct (decide (h = Some (etagOf newest))) as [Hh | Hh].
  - left. rewrite (bool_decide_eq_true_2 _ Hh). split; [exact Hh|].
    eexists. now repeat split.
  - right. rewrite (bool_decide_eq_false_2 _ Hh).
    destruct (String.eqb_spec (etagOf newest) (_prevEtag (self w))) as [Heq | Hne].
    + left. now repeat split.
    + right. split; [exact Hh|]. split; [exact Hne|].
      destruct (latest_metadata (_baseUri (self w) +:+ "/latest") w) as (metadata & ->).
      eexists. split; [reflexivity|]. split; [reflexivity|].
      split; [header_lookup|]. split; [header_lookup|]. split; [header_lookup|].
      now split.
Qed.

(** X13. After a full answer of [GET latest], a request that carries the
    [ETag] of that answer in [If-None-Match], with nothing ingested in
    between, is answered 304 without a body, and the instance is left as it
    was. *)
Theorem not_modified_after_full_answer (h : option string) (w w' : World) (res : Response) :
  getLatest h w = (Respond res, w') ->
  status res = 200 ->
  exists etag res',
    headers res !! "ETag" = Some etag /\
    getLatest (Some etag) w' = (Respond res', w') /\
    status res' = 304 /\ body res' = None.
Proof.
  unfold getLatest.
  destruct (last (_latest (self w))) as [newest|] eqn:Hlast; [|intros [= <- <-]; discriminate].
  destruct (match h with Some _ => _ | None => _ end); [intros [= <- <-]; discriminate|].
  destruct (String.eqb (etagOf newest) (_prevEtag (self w))); [discriminate|].
  destruct (createMetadata _ _ w) as [metadata|]; [|discriminate].
  intros [= <- <-] _.
  set (w2 := with_self _ w).
  exists (etagOf newest). eexists. split; [header_lookup|].
  split; [|split].
  - change (_latest (self w2)) with (_latest (self w)).
    rewrite Hlast. cbv beta iota zeta.
    rewrite etagOf_not_empty, String.eqb_refl. reflexivity.
  - reflexivity.
  - reflexivity.
Qed.

(** X14. Every answer of the two handlers, whatever its status, carries
    the header [Access-Control-Allow-Origin: *]. *)
Theorem cors_header_on_every_answer (h time : option string) (now : Z) (w : World)
    (res : Response) :
  fst (getLatest h w) = Respond res \/ fst (getFragments time now w) = Respond res ->
  headers res !! "Access-Control-Allow-Origin" = Some "*".
Proof.
  intros [Hres | Hres].
  - unfold getLatest in Hres.
    destruct (last (_latest (self w))) as [newest|]; [|injection Hres as <-; header_lookup].
    destruct (match h with Some _ => _ | None => _ end); [injection Hres as <-; header_lookup|].
    destruct (String.eqb (etagOf newest) (_prevEtag (self w))); [discriminate|].
    destruct (createMetadata _ _ w) as [metadata|]; [|discriminate].
    injection Hres as <-. header_lookup.
  - unfold getFragments in Hres.
    destruct (time ≫= dateParse) as [t|]; [|injection Hres as <-; header_lookup].
    destruct (mapM fragmentTime _) as [bs|]; [|discriminate].
    destruct (dateBinarySearch t bs) as [[b i]|]; [|discriminate].
    destruct (negb (t =? b)); [injection Hres as <-; header_lookup|].
    destruct (getTriplesFromFile _ _) as [[pf ft]|]; [|discriminate].
    destruct (createMetadata _ _ w) as [metaData|]; [|discriminate].
    destruct (_ <? _); injection Hres as <-; header_lookup.
Qed.

(** X15. The handlers are readers: [GET fragments] leaves the whole state
    as it was, and [GET latest] changes at most the cached validator and
    the cached body; neither writes a file, pushes to the websocket or
    touches the window and the writer. *)
Theorem handlers_only_touch_the_cache (h time : option string) (now : Z) (w : World) :
  snd (getFragments time now w) = w /\
  (snd (getLatest h w) = w \/
   exists etag text,
     snd (getLatest h w) =
       with_self (fun r => set_prevEtag etag (set_prevResponseBody text r)) w) /\
  disk (snd (getLatest h w)) = disk w /\
  pushed (snd (getLatest h w)) = pushed w /\
  _latest (self (snd (getLatest h w))) = _latest (self w) /\
  _byteCounter (self (snd (getLatest h w))) = _byteCounter (self w) /\
  lastFragment (self (snd (getLatest h w))) = lastFragment (self w).
Proof.
  split; [apply getFragments_world|].
  unfold getLatest.
  destruct (last (_latest (self w))) as [newest|]; [|now repeat split; try left].
  destruct (match h with Some _ => _ | None => _ end); [now repeat split; try left|].
  destruct (String.eqb (etagOf newest) (_prevEtag (self w))); [now repeat split; try left|].
  destruct (createMetadata _ _ w) as [metadata|]; [|now repeat split; try left].
  simpl. split; [right; eauto|]. now repeat split.
Qed.

End Handlers.

(** The first [GET latest] after [r1] and the conditional request that
    follows it. *)
Lemma not_modified_after_full_answer_witness :
  let w1 := @onData testDouble ["r1"] (testWorld 2 100) in
  let first := @getLatest testDouble None w1 in
  exists etag res',
    @getLatest testDouble (Some etag) (snd first) = (Respond res', snd first) /\
    status res' = 304.
Proof.
  intros w1 first.
  destruct first as [o w2] eqn:E.
  destruct o as [res|e]; [|vm_compute in E; discriminate].
  assert (Hst : status res = 200) by (vm_compute in E; now injection E as <- _).
  destruct (@not_modified_after_full_answer testDouble None w1 w2 res E Hst)
    as (etag & res' & _ & Hget & H304 & _).
  exists etag, res'. split; [exact Hget | exact H304].
Defined.

(** The redirect of the archive for a request without [time]. *)
Lemma cors_header_on_every_answer_witness :
  exists res,
    fst (@getFragments testDouble None 4 testArchive) = Respond res /\
    headers res !! "Access-Control-Allow-Origin" = Some "*".
Proof.
  eexists. split; [reflexivity|].
  apply (@cors_header_on_every_answer testDouble None None 4 testArchive).
  right. reflexivity.
Defined.

(** * Overlapping calls *)

(** ** The two halves of [storeData] *)

Section Halves.
Context `{Externals}.

(** [storeData] is its two halves with nothing in between. *)
Lemma storeData_in_isolation (p : string) (g : Z) (w : World) :
  storeData p g w =
    match storeData_begin p g w with
    | (w1, Some op) => storeData_settle op w1
    | (w1, None) => w1
    end.
Proof.
  unfold storeData, storeData_begin.
  destruct (rotates w); simpl; [reflexivity|].
  destruct (lastFragment (self w)); reflexivity.
Qed.

Lemma init_evict_in_isolation (w : World) :
  init_evict w =
    match init_evict_begin w with
    | (w1, Some op) => storeData_settle op w1
    | (w1, None) => w1
    end.
Proof.
  unfold init_evict, init_evict_begin.
  destruct (_ >? _); [|reflexivity].
  destruct (pop (_latest (self w))) as [[o|] rest]; [|reflexivity].
  apply storeData_in_isolation.
Qed.

(** What the first half leaves: the fragment of the append is the open
    one, the files are untouched, the counter is reset or kept. *)
Lemma storeData_begin_spec (p : string) (g : Z) (w : World) :
  disk (fst (storeData_begin p g w)) = disk w /\
  pushed (fst (storeData_begin p g w)) = pushed w /\
  _byteCounter (self (fst (storeData_begin p g w))) =
    (if rotates w then 0 else _byteCounter (self w)) /\
  lastFragment (self (fst (storeData_begin p g w))) =
    (if rotates w then Some (freshFragment g w) else lastFragment (self w)) /\
  snd (storeData_begin p g w) =
    (fun path => (path, p)) <$> lastFragment (self (fst (storeData_begin p g w))).
Proof.
  unfold storeData_begin. destruct (rotates w); simpl; [now repeat split|].
  destruct (lastFragment (self w)); now repeat split.
Qed.

Lemma front_storeData_begin (p : string) (g : Z) (w : World) :
  front (fst (storeData_begin p g w)) = front w.
Proof.
  destruct w as [r dk ps]. destruct r.
  unfold storeData_begin, rotates, front. simpl.
  destruct (_ || _); reflexivity.
Qed.

Lemma front_storeData_settle (op : Append) (w : World) :
  front (storeData_settle op w) = front w.
Proof. destruct w as [r dk ps]. destruct r. reflexivity. Qed.

Lemma front_storeData (p : string) (g : Z) (w : World) : front (storeData p g w) = front w.
Proof.
  rewrite storeData_in_isolation.
  pose proof (front_storeData_begin p g w) as Hb.
  destruct (storeData_begin p g w) as [w1 [op|]]; simpl in Hb;
    [now rewrite front_storeData_settle | exact Hb].
Qed.

End Halves.

(** Worlds with the same front: what the window logic of [init] reads and
    writes is the same. *)
Ltac same_front H w1 w2 :=
  destruct w1 as [[] ? ?], w2 as [[] ? ?]; unfold front in H; simpl in H;
  injection H; intros; subst.

Section Schedules.
Context `{Externals}.

Lemma front_latest (w1 w2 : World) :
  front w1 = front w2 ->
  _latest (self w1) = _latest (self w2) /\
  _latestWindowsize (self w1) = _latestWindowsize (self w2) /\
  _latestTrig (self w1) = _latestTrig (self w2) /\
  pushed w1 = pushed w2.
Proof. intros Hf. same_front Hf w1 w2. now repeat split. Qed.

Lemma front_init_push (e : Entry) (w1 w2 : World) :
  front w1 = front w2 -> front (init_push e w1) = front (init_push e w2).
Proof. intros Hf. same_front Hf w1 w2. reflexivity. Qed.

Lemma front_init_publish (d : string) (w1 w2 : World) :
  front w1 = front w2 -> front (init_publish d w1) = front (init_publish d w2).
Proof.
  intros Hf. same_front Hf w1 w2. unfold init_publish. simpl.
  match goal with |- context [if ?b then _ else _] => destruct b end; reflexivity.
Qed.

Lemma front_set_latest (l : list Entry) (w1 w2 : World) :
  front w1 = front w2 ->
  front (with_self (set_latest l) w1) = front (with_self (set_latest l) w2).
Proof. intros Hf. same_front Hf w1 w2. reflexivity. Qed.

Lemma front_init_refresh (w1 w2 : World) :
  front w1 = front w2 -> front (init_refresh w1) = front (init_refresh w2).
Proof. intros Hf. same_front Hf w1 w2. reflexivity. Qed.

Lemma front_init_evict (w1 w2 : World) :
  front w1 = front w2 ->
  front (fst (init_evict_begin w1)) = front (init_evict w2).
Proof.
  intros Hf. destruct (front_latest w1 w2 Hf) as (Hl & HW & _).
  unfold init_evict_begin, init_evict. rewrite Hl, HW.
  destruct (_ >? _); [|exact Hf].
  destruct (pop (_latest (self w2))) as [[o|] rest].
  - rewrite front_storeData_begin, front_storeData. now apply front_set_latest.
  - now apply front_set_latest.
Qed.

(** The synchronous block of [init] and [init] itself do the same to the
    front, from worlds with the same front. *)
Lemma front_arrive (d : string) (s : Loop) (w2 : World) :
  front (world s) = front w2 ->
  front (world (arrive d s)) = front (init d w2).
Proof.
  intros Hf. unfold arrive, init.
  destruct (getGeneratedAtTimeValue d) as [g|]; [|exact Hf].
  destruct (getTriplesFromString d) as [[pf ts]|]; [|exact Hf].
  simpl. apply front_init_refresh, front_init_evict.
  now apply front_init_publish, front_init_push.
Qed.

Lemma run_cons (ev : event) (evs : list event) (s : Loop) :
  run (ev :: evs) s = run evs (step ev s).
Proof. reflexivity. Qed.

Lemma run_app (evs1 evs2 : list event) (s : Loop) :
  run (evs1 ++ evs2) s = run evs2 (run evs1 s).
Proof. unfold run. apply fold_left_app. Qed.

(** In any schedule the front is the one that [onData] gives on the
    observations in arrival order. *)
Lemma run_front (evs : list event) :
  forall (s : Loop) (w2 : World),
    front (world s) = front w2 ->
    front (world (run evs s)) = front (onData (arrivals evs) w2).
Proof.
  induction evs as [|ev evs IH]; intros s w2 Hf; [exact Hf|].
  rewrite run_cons. destruct ev as [d | k].
  - change (arrivals (Arrive d :: evs)) with (d :: arrivals evs).
    rewrite onData_cons. apply IH. simpl. now apply front_arrive.
  - change (arrivals (Settle k :: evs)) with (arrivals evs).
    apply IH. simpl. destruct (pending s !! k) as [op|]; [|exact Hf].
    simpl. now rewrite front_storeData_settle.
Qed.

(** One observation whose append completes before anything else runs is
    [init]. *)
Lemma run_one_quiescent (d : string) (w : World) :
  run [Arrive d; Settle 0] (mkLoop w []) = mkLoop (init d w) [].
Proof.
  unfold run. simpl. unfold arrive, init. simpl.
  destruct (getGeneratedAtTimeValue d) as [g|]; [|reflexivity].
  destruct (getTriplesFromString d) as [[pf ts]|]; [|reflexivity].
  rewrite init_evict_in_isolation.
  destruct (init_evict_begin _) as [w1 [op|]]; reflexivity.
Qed.

(** Observations that arrive one at a time are processed as by [onData]. *)
Lemma run_quiescent (ds : list string) (w : World) :
  run (quiescent ds) (mkLoop w []) = mkLoop (onData ds w) [].
Proof.
  revert w. induction ds as [|d ds IH]; intros w; [reflexivity|].
  change (quiescent (d :: ds)) with ([Arrive d; Settle 0] ++ quiescent ds)%list.
  now rewrite run_app, run_one_quiescent, IH, onData_cons.
Qed.

End Schedules.

(** ** The writer under overlapping calls *)

(** C3, on the code. The window is full with [r1] and [r2], the cap is
    100 bytes, and [onData] is given the array [r3, r4].  The block of
    [r3] starts the fragment [t3] and an append of [r3] to it; until that
    append completes the counter is still 0.  The block of [r4] runs
    before that: it finds [t3] open with a counter that does not exceed
    the cap, and yet starts the new fragment [t4].  The two payloads, four
    bytes in all, end in two fragments.  Had [r4] arrived after the append
    of [r3] had completed, it would have been appended to [t3]. *)
Theorem rotation_races_with_the_append :
  let full := mkLoop (@onData testDouble ["r1"; "r2"] (testWorld 2 100)) [] in
  let mid := @run testDouble [Arrive "r3"] full in
  let done := @run testDouble (batch ["r3"; "r4"]) full in
  let calm := @run testDouble (quiescent ["r3"; "r4"]) full in
  (lastFragment (self (world mid)) = Some "frags/t3.trig" /\
   pending mid = [("frags/t3.trig", "r3")] /\
   _byteCounter (self (world mid)) = 0 /\
   _fragmentMaxSize (self (world mid)) = 100 /\
   rotates (world mid) = true /\
   ~ rotationAsSpecified (world mid)) /\
  (map_to_list (disk (world done)) = [("frags/t3.trig", "r3"); ("frags/t4.trig", "r4")] /\
   lastFragment (self (world done)) = Some "frags/t4.trig" /\
   _byteCounter (self (world done)) = 4 /\
   pending done = []) /\
  map_to_list (disk (world calm)) = [("frags/t3.trig", "r3r4")].
Proof.
  intros full mid done calm.
  split; [|split].
  - repeat split; try (vm_compute; reflexivity).
    unfold rotationAsSpecified. intros [Hdir _].
    destruct (Hdir ltac:(vm_compute; reflexivity)) as [Hopen | Hcap].
    + vm_compute in Hopen. discriminate.
    + vm_compute in Hcap. discriminate.
  - repeat split; vm_compute; reflexivity.
  - vm_compute. reflexivity.
Qed.

(** C7, on the code. The archive holds the fragments [t1] and [t3].  A
    request for [t1], which is not the newest fragment, is answered 200
    with the header [Cache-Control: public, max-age=31536000, inmutable]:
    the word [immutable] is not in it.  A request for [t3], the newest
    fragment, is answered with [no-cache, no-store, must-revalidate]. *)
Theorem older_fragment_is_marked_inmutable :
  (exists res value,
     @getFragments testDouble (Some "t1") 4 testArchive = (Respond res, testArchive) /\
     status res = 200 /\
     headers res !! "Cache-Control" = Some value /\
     value = "public, max-age=31536000, inmutable" /\
     String.index 0 "immutable" value = None) /\
  (exists res,
     @getFragments testDouble (Some "t3") 4 testArchive = (Respond res, testArchive) /\
     status res = 200 /\
     headers res !! "Cache-Control" = Some "no-cache, no-store, must-revalidate").
Proof.
  split.
  - eexists _, _. split; [vm_compute; reflexivity|].
    split; [reflexivity|]. split; [vm_compute; reflexivity|].
    split; [reflexivity | vm_compute; reflexivity].
  - eexists. split; [vm_compute; reflexivity|].
    split; [reflexivity | vm_compute; reflexivity].
Qed.

Section Overlap.
Context `{Externals}.

Lemma arrivals_arrive (ds : list string) (rest : list event) :
  arrivals (map Arrive ds ++ rest) = (ds ++ arrivals rest)%list.
Proof.
  induction ds as [|d ds IH]; [reflexivity|].
  change (arrivals (map Arrive (d :: ds) ++ rest))
    with (d :: arrivals (map Arrive ds ++ rest)).
  now rewrite IH.
Qed.

Lemma arrivals_settle (ds : list string) :
  arrivals (map (fun _ : string => Settle 0) ds) = [].
Proof. induction ds as [|d ds IH]; [reflexivity | exact IH]. Qed.

Lemma arrivals_batch (ds : list string) : arrivals (batch ds) = ds.
Proof. unfold batch. now rewrite arrivals_arrive, arrivals_settle, app_nil_r. Qed.

(** X16. In every schedule, whatever the order in which observations reach
    their synchronous block and appends complete, the window, its TriG
    text, the websocket pushes and every field of the instance but the
    byte counter and the open fragment are those that [onData] gives on
    the observations in arrival order; so it is for the array that
    [onData] is given at once. *)
Theorem window_is_the_same_in_any_schedule (evs : list event) (w : World)
    (inFlight : list Append) (ds : list string) :
  let s := run evs (mkLoop w inFlight) in
  let w' := onData (arrivals evs) w in
  (front (world s) = front w' /\
   _latest (self (world s)) = _latest (self w') /\
   _latestTrig (self (world s)) = _latestTrig (self w') /\
   pushed (world s) = pushed w') /\
  front (world (run (batch ds) (mkLoop w inFlight))) = front (onData ds w).
Proof.
  intros s w'.
  assert (Hf : front (world s) = front w') by now apply run_front.
  split.
  - split; [exact Hf|]. destruct (front_latest _ _ Hf) as (Hl & _ & Ht & Hp).
    now repeat split.
  - rewrite <- (arrivals_batch ds) at 2. now apply run_front.
Qed.

Lemma disk_init_evict_begin (w : World) : disk (fst (init_evict_begin w)) = disk w.
Proof.
  unfold init_evict_begin. destruct (_ >? _); [|reflexivity].
  destruct (pop (_latest (self w))) as [[o|] rest]; [|reflexivity].
  now rewrite (proj1 (storeData_begin_spec _ _ _)).
Qed.

(** The synchronous block of [init] writes no file. *)
Lemma disk_arrive (d : string) (s : Loop) : disk (world (arrive d s)) = disk (world s).
Proof.
  unfold arrive.
  destruct (getGeneratedAtTimeValue d) as [g|]; [|reflexivity].
  destruct (getTriplesFromString d) as [[pf ts]|]; [|reflexivity].
  simpl. change (disk (init_refresh ?x)) with (disk x).
  rewrite disk_init_evict_begin. unfold init_publish.
  destruct (_websocket _); reflexivity.
Qed.

(** X17. In every schedule the storage folder is append-only: whatever a
    file holds stays at its beginning, whichever observations arrive and
    whichever appends complete, in whatever order. *)
Theorem storage_is_append_only_in_any_schedule (evs : list event) (s : Loop)
    (path c : string) :
  disk (world s) !! path = Some c ->
  exists c', disk (world (run evs s)) !! path = Some (c +:+ c').
Proof.
  revert s c. induction evs as [|ev evs IH]; intros s c Hc.
  - exists EmptyString. now rewrite append_nil_r.
  - rewrite run_cons.
    assert (Hstep : exists c1, disk (world (step ev s)) !! path = Some (c +:+ c1)).
    { destruct ev as [d | k]; simpl.
      - exists EmptyString. now rewrite disk_arrive, append_nil_r.
      - destruct (pending s !! k) as [[f text]|];
          [|exists EmptyString; now rewrite append_nil_r].
        simpl. destruct (decide (f = path)) as [-> | Hne].
        + exists text. now rewrite appendToFile_lookup, Hc.
        + exists EmptyString. now rewrite appendToFile_other, append_nil_r. }
    destruct Hstep as (c1 & Hc1).
    destruct (IH (step ev s) (c +:+ c1) Hc1) as (c2 & Hc2).
    exists (c1 +:+ c2). now rewrite Hc2, append_assoc.
Qed.

(** X2. When observations arrive one at a time, each append completing
    before the next observation arrives, the accepted observations that
    find no room in the window are stored one by one, in arrival order,
    each with its own generated-at time: the folder, the byte counter and
    the open fragment end as after [storeData] called on each of them in
    turn, and no append is left in flight. *)
Theorem overflow_is_stored_in_arrival_order (w : World) (ds : list string) :
  let s := run (quiescent ds) (mkLoop w []) in
  let w' := storeAll (map stored (drop (room w) (entries ds))) w in
  pending s = [] /\
  disk (world s) = disk w' /\
  _byteCounter (self (world s)) = _byteCounter (self w') /\
  lastFragment (self (world s)) = lastFragment (self w').
Proof.
  intros s w'. unfold s. rewrite run_quiescent. simpl.
  destruct (onData_split ds w) as [_ Hws].
  fold w' in Hws. unfold writerState in Hws.
  injection Hws as _ _ Hb Hf Hd. now repeat split.
Qed.

(** X5. [storeData] fixes its file when it starts: the append goes to the
    fragment that is open right after the test of line 171, and starting
    it writes nothing.  When the append completes, whatever ran in
    between, that file holds its content of that moment followed by the
    payload, no other file changes, the open fragment stays the one it
    then is, and the byte counter grows by the payload's bytes. *)
Theorem storeData_appends_to_the_open_fragment (p : string) (g : Z) (w w1 : World)
    (op : Append) (later : World) :
  storeData_begin p g w = (w1, Some op) ->
  (lastFragment (self w1) = Some (fst op) /\ snd op = p /\ disk w1 = disk w) /\
  (disk (storeData_settle op later) !! fst op
     = Some (default EmptyString (disk later !! fst op) +:+ p) /\
   (forall path, path <> fst op ->
      disk (storeData_settle op later) !! path = disk later !! path) /\
   lastFragment (self (storeData_settle op later)) = lastFragment (self later) /\
   _byteCounter (self (storeData_settle op later))
     = _byteCounter (self later) + Z.of_nat (String.length p)).
Proof.
  intros Hbegin.
  destruct (storeData_begin_spec p g w) as (Hd & _ & _ & _ & Hop).
  rewrite Hbegin in Hd, Hop. simpl in Hd, Hop.
  destruct (lastFragment (self w1)) as [path|] eqn:Hf; [|discriminate].
  injection Hop as ->. simpl.
  split; [now repeat split|].
  split; [apply appendToFile_lookup|].
  split; [|now split].
  intros path' Hne. apply appendToFile_other. congruence.
Qed.


Lemma entryOf_data (d : string) (e : Entry) : entryOf d = Some e -> data e = d.
Proof.
  unfold entryOf.
  destruct (getGeneratedAtTimeValue d) as [g|]; [|discriminate].
  destruct (getTriplesFromString d) as [[pf ts]|]; [|discriminate].
  now intros [= <-].
Qed.

(** X8. With a full window and a new fragment due, observations that
    arrive one at a time, each append completing before the next
    observation arrives, land in one fragment as long as the first is not
    empty and the bytes written before each of them stay within the cap:
    the fragment is named by the generated-at time of the first, it holds
    the observations one after the other behind what a file of that name
    already held, the counter is their total byte length, and no other
    file changes. *)
Theorem payloads_within_the_cap_share_a_fragment (w : World) (d1 : string) (e1 : Entry)
    (ds : list string) :
  room w = 0%nat ->
  rotates w = true ->
  entryOf d1 = Some e1 ->
  d1 <> EmptyString ->
  totalBytes (removelast (map stored (entries (d1 :: ds)))) <= _fragmentMaxSize (self w) ->
  let s := run (quiescent (d1 :: ds)) (mkLoop w []) in
  let f := freshFragment (gat e1) w in
  let ps := map stored (entries (d1 :: ds)) in
  pending s = [] /\
  lastFragment (self (world s)) = Some f /\
  _byteCounter (self (world s)) = totalBytes ps /\
  disk (world s) !! f = Some (default EmptyString (disk w !! f) +:+ payloads ps) /\
  forall path, path <> f -> disk (world s) !! path = disk w !! path.
Proof.
  intros Hroom Hr He Hne Hcap s f ps.
  unfold s. rewrite run_quiescent. simpl.
  destruct (onData_split (d1 :: ds) w) as [_ Hws].
  rewrite Hroom, drop_0 in Hws. fold ps in Hws.
  assert (Hps : ps = (d1, gat e1) :: map stored (entries ds)).
  { unfold ps, entries. simpl. rewrite He. simpl. unfold stored at 1.
    now rewrite (entryOf_data d1 e1 He). }
  fold ps in Hcap. rewrite Hps in Hcap, Hws |- *.
  destruct (storeAll_one_fragment w d1 (gat e1) (map stored (entries ds)) Hr Hne Hcap)
    as (Hf & Hb & Hd & Ho).
  unfold writerState in Hws. injection Hws as _ _ Hb' Hf' Hd'.
  split; [reflexivity|].
  split; [now rewrite Hf'|].
  split; [now rewrite Hb'|].
  split; [now rewrite Hd'|].
  intros path Hpath. rewrite Hd'. now apply Ho.
Qed.

End Overlap.

(** The archive keeps what it holds when the array [r1 .. r4] arrives. *)
Lemma storage_is_append_only_in_any_schedule_witness :
  exists c',
    disk (world (@run testDouble (batch ["r1"; "r2"; "r3"; "r4"]) (mkLoop testArchive [])))
      !! "frags/t1.trig" = Some ("r1" +:+ c').
Proof.
  apply (@storage_is_append_only_in_any_schedule testDouble
           (batch ["r1"; "r2"; "r3"; "r4"]) (mkLoop testArchive []) "frags/t1.trig" "r1").
  reflexivity.
Defined.

(** The call for [r3] on a new instance starts the fragment [t3]; its
    append completes after the call for [r4] has started [t4]: the text
    still goes to [t3]. *)
Lemma storeData_appends_to_the_open_fragment_witness :
  let started := @storeData_begin testDouble "r3" 3 (testWorld 2 100) in
  let later := fst (@storeData_begin testDouble "r4" 4 (fst started)) in
  lastFragment (self later) = Some "frags/t4.trig" /\
  disk (storeData_settle ("frags/t3.trig", "r3") later) !! "frags/t3.trig" = Some "r3".
Proof.
  intros started later. split; [reflexivity|].
  destruct (@storeData_appends_to_the_open_fragment testDouble "r3" 3 (testWorld 2 100)
              (fst started) ("frags/t3.trig", "r3") later ltac:(reflexivity))
    as (_ & Hfile & _).
  exact Hfile.
Defined.


(** The window is full with [r1] and [r2]; [r3] and [r4] arrive one at a
    time and share the fragment [t3]. *)
Lemma payloads_within_the_cap_share_a_fragment_witness :
  let w := @onData testDouble ["r1"; "r2"] (testWorld 2 100) in
  let s := @run testDouble (quiescent ["r3"; "r4"]) (mkLoop w []) in
  lastFragment (self (world s)) = Some "frags/t3.trig" /\
  _byteCounter (self (world s)) = 4 /\
  disk (world s) !! "frags/t3.trig" = Some "r3r4".
Proof.
  intros w s.
  destruct (@entryOf testDouble "r3") as [e1|] eqn:He; [|vm_compute in He; discriminate].
  destruct (@payloads_within_the_cap_share_a_fragment testDouble w "r3" e1 ["r4"]
              ltac:(reflexivity) ltac:(reflexivity) He ltac:(discriminate)
              ltac:(vm_compute; discriminate))
    as (_ & Hf & Hb & Hd & _).
  vm_compute in He. injection He as <-.
  split; [exact Hf|]. split; [exact Hb | exact Hd].
Defined.
